(** * Gregorian day engine (grcal.c): shallow embedding and verified properties

    The three public functions of [grcal.c] ([grcal_offsetToDate],
    [grcal_dateToOffset], [grcal_weekday]) and the two static helpers
    ([isLeapYear], [monthLength]) are transcribed statement by statement.

    Modelling conventions:
    - a C [int] / [int32_t] value is a [Z]; every arithmetic operator of the
      source is followed by a normalisation [norm].  The machine reading is
      [norm := wrap32] (two's complement wrap-around on 32 bits, [int] taken
      to be 32 bits wide); the ideal reading is [norm := exact];
    - C's [/] and [%] truncate toward zero: [Z.quot] and [Z.rem];
    - [abort()] is the outcome [Aborted], tagged with the place it was
      raised from;
    - the two loops run on fuel; running out of it is the outcome
      [Unfinished], which the theorems below exclude;
    - an output pointer is [None] for NULL or [Some l] for a location [l] of
      a heap of integer cells. *)

From Stdlib Require Import ZArith Lia Bool List.
From Stdlib Require Import Strings.String Strings.Ascii.
From stdpp Require Import base option gmap.

Local Open Scope Z_scope.

(** ** Outcomes of a call *)

Inductive fault : Set :=
| IsLeapYear_param      (* isLeapYear: y < 1 *)
| MonthLength_param     (* monthLength: index outside 0..11 *)
| MonthLength_pattern   (* monthLength: unknown pattern character *)
| OffsetToDate_param    (* grcal_offsetToDate: offset out of range *)
| Weekday_param.        (* grcal_weekday: offset out of range *)

Inductive outcome (A : Type) : Type :=
| Done (a : A)
| Aborted (f : fault)
| Unfinished.

Arguments Done {A} a.
Arguments Aborted {A} f.
Arguments Unfinished {A}.

Definition outcome_bind {A B : Type} (k : A → outcome B) (m : outcome A)
  : outcome B :=
  match m with
  | Done a => k a
  | Aborted f => Aborted f
  | Unfinished => Unfinished
  end.

#[global] Instance outcome_mret : MRet outcome := @Done.
#[global] Instance outcome_mbind : MBind outcome := @outcome_bind.

(** ** Memory: NULL-able pointers to integer cells *)

Abbreviation loc := positive (only parsing).
Abbreviation heap := (gmap positive Z) (only parsing).
Abbreviation ptr := (option positive) (only parsing).

(** [if (p != NULL) { *p = v; }] *)
Definition poke (p : ptr) (v : Z) (h : heap) : heap :=
  match p with
  | None => h
  | Some l => <[l := v]> h
  end.

(** ** Machine integers *)

Definition INT_MIN : Z := -2147483648.
Definition INT_MAX : Z := 2147483647.

Definition is_int (z : Z) : Prop := INT_MIN <= z <= INT_MAX.

Definition wrap32 (z : Z) : Z := (z + 2147483648) mod 4294967296 - 2147483648.

Definition exact (z : Z) : Z := z.

(** C truth value of an [int]. *)
Definition truthy (z : Z) : bool := negb (z =? 0).

(** ** Constants of grcal.h and grcal.c *)

Definition GRCAL_DAY_MAX : Z := 3074323.
Definition GRCAL_DAY_UNIX : Z := 141427.

Definition DAY_OFFSET : Z := 139750.
Definition FIRST_MONDAY : Z := 3.
Definition WEEK_LENGTH : Z := 7.
Definition MONTH_COUNT : Z := 12.
Definition MONTH_OFFSET : Z := 2.
Definition LONG_MONTH_LENGTH : Z := 31.
Definition SHORT_MONTH_LENGTH : Z := 30.
Definition LEAP_MONTH_LENGTH : Z := 29.
Definition NONLEAP_MONTH_LENGTH : Z := 28.
Definition QC_DAYS : Z := 146097.
Definition C_DAYS : Z := 36524.
Definition Q_DAYS : Z := 1461.
Definition Y_DAYS : Z := 365.
Definition Y_LEAP_DAYS : Z := 366.
Definition QC_C_COUNT : Z := 4.
Definition C_Q_COUNT : Z := 25.
Definition Q_Y_COUNT : Z := 4.
Definition QC_YEARS : Z := 400.
Definition C_YEARS : Z := 100.
Definition Q_YEARS : Z := 4.
Definition BASE_YEAR : Z := 1200.
Definition MAX_YEAR : Z := 9999.

Definition m_pattern : string := "+-+-++-+-++*".

(** Loop bound: a month index grows by one per iteration and [monthLength]
    aborts at index 12, so no loop body of the source runs more than 13
    times. *)
Definition LOOP_FUEL : nat := 13.

(** ** The source functions *)

(** [monthLength]: no arithmetic, only the table lookup. *)
Definition monthLength (i : Z) : outcome Z :=
  if (i <? 0) || (i >=? MONTH_COUNT) then Aborted MonthLength_param
  else
    match String.get (Z.to_nat i) m_pattern with
    | Some c =>
        if Ascii.eqb c "+" then Done LONG_MONTH_LENGTH
        else if Ascii.eqb c "-" then Done SHORT_MONTH_LENGTH
        else if Ascii.eqb c "*" then Done 0
        else Aborted MonthLength_pattern
    | None => Aborted MonthLength_pattern
    end.

Section Engine.

(** Normalisation applied to the result of every arithmetic operator. *)
Variable norm : Z → Z.

Definition c_add (a b : Z) : Z := norm (a + b).
Definition c_sub (a b : Z) : Z := norm (a - b).
Definition c_mul (a b : Z) : Z := norm (a * b).
Definition c_div (a b : Z) : Z := norm (Z.quot a b).
Definition c_mod (a b : Z) : Z := norm (Z.rem a b).

Definition isLeapYear (y : Z) : outcome Z :=
  let leapyear := 0 in
  if y <? 1 then Aborted IsLeapYear_param
  else
    let leapyear := if c_mod y 400 =? 0 then 1 else leapyear in
    let leapyear :=
      if (c_mod y 4 =? 0) && negb (c_mod y 100 =? 0) then 1 else leapyear in
    Done leapyear.

(** The [while (d > 0)] loop of [grcal_offsetToDate]; returns the final
    [(month, d)]. *)
Fixpoint month_walk (fuel : nat) (month d : Z) : outcome (Z * Z) :=
  if d >? 0 then
    match fuel with
    | O => Unfinished
    | S fuel' =>
        ml ← monthLength month;
        if (ml =? 0) || (d <? ml) then Done (month, d)
        else month_walk fuel' (c_add month 1) (c_sub d ml)
    end
  else Done (month, d).

Definition grcal_offsetToDate
    (offs : Z) (pYear pMonth pDayOfMonth : ptr) (h : heap) : outcome heap :=
  if (offs <? 0) || (offs >? GRCAL_DAY_MAX) then Aborted OffsetToDate_param
  else
    let offs := c_add offs DAY_OFFSET in
    let qc := c_div offs QC_DAYS in
    let offs := c_mod offs QC_DAYS in
    let c := c_div offs C_DAYS in
    let offs := c_mod offs C_DAYS in
    let q := c_div offs Q_DAYS in
    let offs := c_mod offs Q_DAYS in
    let y := c_div offs Y_DAYS in
    let offs := c_mod offs Y_DAYS in
    let d := offs in
    let '(c, q, y, d) :=
      if c =? QC_C_COUNT
      then (c_sub QC_C_COUNT 1, c_sub C_Q_COUNT 1,
            c_sub Q_Y_COUNT 1, c_sub Y_LEAP_DAYS 1)
      else (c, q, y, d) in
    let '(y, d) :=
      if y =? Q_Y_COUNT
      then (c_sub Q_Y_COUNT 1, c_sub Y_LEAP_DAYS 1)
      else (y, d) in
    let year :=
      c_add (c_add (c_add (c_add (c_mul qc QC_YEARS) (c_mul c C_YEARS))
                          (c_mul q Q_YEARS)) y) BASE_YEAR in
    let month := 0 in
    '(month, d) ← month_walk LOOP_FUEL month d;
    let day := c_add d 1 in
    let month := c_add month MONTH_OFFSET in
    let '(month, year) :=
      if month >=? MONTH_COUNT
      then (c_sub month MONTH_COUNT, c_add year 1)
      else (month, year) in
    let month := c_add month 1 in
    Done (poke pDayOfMonth day (poke pMonth month (poke pYear year h))).

(** The [for (x = 0; x < month; x++)] loop of [grcal_dateToOffset];
    returns the final [offs]. *)
Fixpoint month_sum (fuel : nat) (x month offs : Z) : outcome Z :=
  if x <? month then
    match fuel with
    | O => Unfinished
    | S fuel' =>
        ml ← monthLength x;
        month_sum fuel' (c_add x 1) month (c_add offs ml)
    end
  else Done offs.

Definition grcal_dateToOffset
    (pOffs : ptr) (year month dayofmonth : Z) (h : heap)
  : outcome (Z * heap) :=
  let result := 1 in
  let month_len := 0 in
  let qc := 0 in
  let c := 0 in
  let q := 0 in
  let y := 0 in
  let offs := 0 in
  let result :=
    if (year <=? BASE_YEAR) || (month <? 1) || (dayofmonth <? 1)
    then 0 else result in
  let result :=
    if truthy result then
      if (year >? MAX_YEAR) || (month >? MONTH_COUNT) then 0 else result
    else result in
  let dayofmonth :=
    if truthy result then c_sub dayofmonth 1 else dayofmonth in
  let '(year, month) :=
    if truthy result then
      let month := c_sub (c_sub month 1) MONTH_OFFSET in
      if month <? 0 then (c_sub year 1, c_add month MONTH_COUNT)
      else (year, month)
    else (year, month) in
  '(result, month_len) ←
    (if truthy result then
       month_len ← monthLength month;
       month_len ←
         (if month_len =? 0 then
            leap ← isLeapYear (c_add year 1);
            Done (if truthy leap then LEAP_MONTH_LENGTH
                  else NONLEAP_MONTH_LENGTH)
          else Done month_len);
       Done (if dayofmonth >=? month_len then 0 else result, month_len)
     else Done (result, month_len));
  let year := if truthy result then c_sub year BASE_YEAR else year in
  let '(qc, c, q, y, year) :=
    if truthy result then
      let qc := c_div year QC_YEARS in
      let year := c_mod year QC_YEARS in
      let c := c_div year C_YEARS in
      let year := c_mod year C_YEARS in
      let q := c_div year Q_YEARS in
      let y := c_mod year Q_YEARS in
      (qc, c, q, y, year)
    else (qc, c, q, y, year) in
  let offs :=
    if truthy result then
      c_add (c_add (c_add (c_mul qc QC_DAYS) (c_mul c C_DAYS))
                   (c_mul q Q_DAYS)) (c_mul y Y_DAYS)
    else offs in
  offs ← (if truthy result then month_sum LOOP_FUEL 0 month offs
          else Done offs);
  let offs := if truthy result then c_add offs dayofmonth else offs in
  let offs := if truthy result then c_sub offs DAY_OFFSET else offs in
  let result :=
    if truthy result then
      if (offs <? 0) || (offs >? GRCAL_DAY_MAX) then 0 else result
    else result in
  Done (result, if truthy result then poke pOffs offs h else h).

Definition grcal_weekday (offs : Z) : outcome Z :=
  if (offs <? 0) || (offs >? GRCAL_DAY_MAX) then Aborted Weekday_param
  else
    let offs := if offs <? FIRST_MONDAY then c_add offs WEEK_LENGTH
                else offs in
    Done (c_add (c_mod (c_sub offs FIRST_MONDAY) WEEK_LENGTH) 1).

End Engine.

(** ** Civil-calendar vocabulary used by the statements *)

(** The Gregorian rule as the specification words it: leap if divisible by
    400; else leap if divisible by 4 and not by 100. *)
Definition gregorian_leap (y : Z) : bool :=
  (y mod 400 =? 0) || ((y mod 4 =? 0) && negb (y mod 100 =? 0)).

(** Length of a (January-based) month of a (January-based) year. *)
Definition civil_month_length (year month : Z) : Z :=
  if month =? 2 then (if gregorian_leap year then 29 else 28)
  else if (month =? 4) || (month =? 6) || (month =? 9) || (month =? 11)
       then 30
       else 31.

(** Names of the weekday numbers, as tabulated in grcal.h. *)
Inductive day_name : Set :=
| Monday | Tuesday | Wednesday | Thursday | Friday | Saturday | Sunday.

Definition weekday_name (w : Z) : option day_name :=
  match w with
  | 1 => Some Monday
  | 2 => Some Tuesday
  | 3 => Some Wednesday
  | 4 => Some Thursday
  | 5 => Some Friday
  | 6 => Some Saturday
  | 7 => Some Sunday
  | _ => None
  end.

(** ** The composition as the specification words it (section 4.4) *)

(** Month kinds and the March-based pattern of section 4.2. *)
Inductive month_kind : Set := Long | Short | Variable_length.

Definition month_pattern : list month_kind :=
  [Long; Short; Long; Short; Long; Long; Short; Long; Short; Long; Long;
   Variable_length].

Definition kind_length (k : month_kind) : Z :=
  match k with
  | Long => 31
  | Short => 30
  | Variable_length => 0
  end.

(** Step 4: March-based year and month index. *)
Definition march_based (year month : Z) : Z * Z :=
  let month' := month - 1 - 2 in
  if month' <? 0 then (year - 1, month' + 12) else (year, month').

(** Steps 7 and 8: day count to the start of March-based year [Y]. *)
Definition days_to_year (Y : Z) : Z :=
  let yo := Y - 1200 in
  let quad_centuries := yo / 400 in
  let r := yo mod 400 in
  let centuries := r / 100 in
  let r := r mod 100 in
  let quad_years := r / 4 in
  let years := r mod 4 in
  quad_centuries * 146097 + centuries * 36524 + quad_years * 1461
  + years * 365.

(** Step 9: lengths of the March-based months strictly before [mi]. *)
Definition days_to_month (mi : Z) : Z :=
  fold_right Z.add 0 (map kind_length (firstn (Z.to_nat mi) month_pattern)).

(** Steps 3 to 11: the offset computed for a date. *)
Definition computed_offset (year month day : Z) : Z :=
  let '(Y, mi) := march_based year month in
  days_to_year Y + days_to_month mi + (day - 1) - 139750.

(** The validation conditions of [grcal_dateToOffset]. *)
Definition date_ok (year month day : Z) : bool :=
  (1200 <? year) && (year <=? 9999) && (1 <=? month) && (month <=? 12)
  && (1 <=? day) && (day <=? civil_month_length year month)
  && (0 <=? computed_offset year month day)
  && (computed_offset year month day <=? GRCAL_DAY_MAX).

(** The validation conditions of the composition, as a proposition: the
    year is at most 1200 or above 9999, the month is outside 1..12, the day
    is outside 1..length of that month in that year, or the computed offset
    is outside 0..3074323. *)
Definition validation_failure (year month day : Z) : Prop :=
  year <= 1200 ∨ year > 9999 ∨ ¬ (1 <= month <= 12) ∨
  ¬ (1 <= day <= civil_month_length year month) ∨
  ¬ (0 <= computed_offset year month day <= GRCAL_DAY_MAX).

(** ** Arithmetic models *)

(** A normalisation that leaves every value of magnitude at most [B]
    alone. *)
Definition norm_ok (B : Z) (norm : Z → Z) : Prop :=
  ∀ z, - B <= z <= B → norm z = z.

(** A normalisation that is exact everywhere except at [k]. *)
Definition clobber (k : Z) (z : Z) : Z := if z =? k then 0 else z.

(** ** March-based coordinates (proof vocabulary)

    Both conversions go through the same internal representation: counts
    [qc], [c], [q], [y] of whole quad centuries, centuries, quad years and
    years since 1200-03-01, a March-based month index [mi] and a zero-based
    day [d0] inside that month. *)

(** Values returned by [monthLength] on 0..11. *)
Definition march_len (mi : Z) : Z :=
  match mi with
  | 0 | 2 | 4 | 5 | 7 | 9 | 10 => 31
  | 1 | 3 | 6 | 8 => 30
  | _ => 0
  end.

(** Days from March 1 to the first day of the month of index [mi]. *)
Definition days_before (mi : Z) : Z :=
  match mi with
  | 1 => 31 | 2 => 61 | 3 => 92 | 4 => 122 | 5 => 153 | 6 => 184
  | 7 => 214 | 8 => 245 | 9 => 275 | 10 => 306 | 11 => 337
  | _ => 0
  end.

Definition year_of (qc c q y : Z) : Z :=
  1200 + 400 * qc + 100 * c + 4 * q + y.

Definition day_index (qc c q y D : Z) : Z :=
  146097 * qc + 36524 * c + 1461 * q + 365 * y + D.

(** Well-formed year counts and day-in-year [D]: the 366th day exists only
    at the end of a quad year, and at the end of a century only when the
    century closes a quad century. *)
Definition year_inv (qc c q y D : Z) : Prop :=
  0 <= qc ∧ 0 <= c <= 3 ∧ 0 <= q <= 24 ∧ 0 <= y <= 3 ∧ 0 <= D <= 365 ∧
  (D = 365 → y = 3 ∧ (q = 24 → c = 3)).

(** Well-formed month index and day-in-month; the last slot (February) is
    bounded by the day-in-year through [year_inv]. *)
Definition month_inv (mi d0 : Z) : Prop :=
  0 <= mi <= 11 ∧ 0 <= d0 ∧ (d0 < march_len mi ∨ mi = 11 ∧ d0 <= 28).

(** January-based year and month of a March-based pair. *)
Definition civil_year (Y mi : Z) : Z := if mi >=? 10 then Y + 1 else Y.
Definition civil_month (mi : Z) : Z := if mi >=? 10 then mi - 9 else mi + 3.

(** The remainder chain of [grcal_offsetToDate], with its two clamps, in
    exact arithmetic. *)
Definition split_days (n : Z) : Z * Z * Z * Z * Z :=
  let qc := Z.quot n 146097 in
  let r := Z.rem n 146097 in
  let c := Z.quot r 36524 in
  let r := Z.rem r 36524 in
  let q := Z.quot r 1461 in
  let r := Z.rem r 1461 in
  let y := Z.quot r 365 in
  let d := Z.rem r 365 in
  let '(c, q, y, d) := if c =? 4 then (3, 24, 3, 365) else (c, q, y, d) in
  let '(y, d) := if y =? 4 then (3, 365) else (y, d) in
  (qc, c, q, y, d).

(** Length of the March-based month [mi] of March-based year [Y]; the last
    slot is the February of the following January-based year. *)
Definition resolved_len (Y mi : Z) : Z :=
  if mi =? 11 then (if gregorian_leap (Y + 1) then 29 else 28)
  else march_len mi.

(** ** Calendar order and succession *)

(** Chronological (lexicographic) order on (year, month, day) triples. *)
Definition date_before (y1 m1 d1 y2 m2 d2 : Z) : Prop :=
  y1 < y2 ∨ (y1 = y2 ∧ (m1 < m2 ∨ (m1 = m2 ∧ d1 < d2))).

(** The day after a calendar date. *)
Definition next_day (year month day : Z) : Z * Z * Z :=
  if day <? civil_month_length year month then (year, month, day + 1)
  else if month <? 12 then (year, month + 1, 1)
  else (year + 1, 1, 1).

(** ** The command-line wrapper (grcal_query.c)

    Output is a list of [printf] / [fprintf(stderr, ...)] calls, each kept
    as its format string and arguments.  [main]'s addressed locals live in
    heap cells.  Reading outside [argv] or [DAY_NAMES] is the crash
    [Bad_access].  A [char] is compared through its code in 0..255; the
    digit test gives the same verdict for a signed [char], whose codes
    above 127 are negative. *)

Inductive cli_fault : Set :=
| Library (f : fault)     (* abort() inside grcal.c *)
| Library_fuel            (* a grcal.c loop out of fuel *)
| ParseInt_param          (* parseInt: NULL argument *)
| Main_argv               (* main: argv or some argv[i] is NULL *)
| Main_unreachable        (* main: the abort() of the last branch *)
| Main_fuel               (* main: argument loop out of fuel *)
| Bad_access.             (* read outside argv or DAY_NAMES *)

Inductive cli_outcome (A : Type) : Type :=
| Returned (a : A)
| Crashed (f : cli_fault).

Arguments Returned {A} a.
Arguments Crashed {A} f.

Definition cli_bind {A B : Type} (k : A → cli_outcome B) (m : cli_outcome A)
  : cli_outcome B :=
  match m with
  | Returned a => k a
  | Crashed f => Crashed f
  end.

#[global] Instance cli_mret : MRet cli_outcome := @Returned.
#[global] Instance cli_mbind : MBind cli_outcome := @cli_bind.

(** A call into grcal.c. *)
Definition lift {A : Type} (m : outcome A) : cli_outcome A :=
  match m with
  | Done a => Returned a
  | Aborted f => Crashed (Library f)
  | Unfinished => Crashed Library_fuel
  end.

Inductive print_arg : Set :=
| Arg_int (z : Z)
| Arg_str (s : string).

Inductive event : Set :=
| Stdout (format : string) (args : list print_arg)
| Stderr (format : string) (args : list print_arg).

Definition INT32_MAX : Z := 2147483647.

Definition DAY_NAMES : list string :=
  ["Mon"; "Tue"; "Wed"; "Thu"; "Fri"; "Sat"; "Sun"]%string.

Definition NL : string := String (ascii_of_nat 10) EmptyString.

Definition MSG_COUNT : string := "%s: Wrong number of parameters!" ++ NL.
Definition MSG_PARSE : string := "%s: Could not parse parameter!" ++ NL.
Definition MSG_OFFSET_RANGE : string := "%s: Day offset out of range!" ++ NL.
Definition MSG_PARSE_YEAR : string := "%s: Could not parse year!" ++ NL.
Definition MSG_PARSE_MONTH : string := "%s: Could not parse month!" ++ NL.
Definition MSG_PARSE_DAY : string := "%s: Could not parse day!" ++ NL.
Definition MSG_YEAR_RANGE : string := "%s: Year is out of range!" ++ NL.
Definition MSG_MONTH_RANGE : string := "%s: Month is out of range!" ++ NL.
Definition MSG_DAY_RANGE : string := "%s: Day is out of range!" ++ NL.
Definition MSG_INVALID : string := "%s: Date is not valid!" ++ NL.
Definition FMT_DATE : string := "%04d-%02d-%02d %s" ++ NL.
Definition FMT_OFFSET : string := "%ld" ++ NL.

Definition char_code (c : ascii) : Z := Z.of_nat (nat_of_ascii c).

(** [*pstr]: the first character, or the terminating NUL. *)
Definition deref (pstr : string) : ascii :=
  match pstr with
  | EmptyString => Ascii.zero
  | String ch _ => ch
  end.

(** [pstr++] *)
Definition advance (pstr : string) : string :=
  match pstr with
  | EmptyString => EmptyString
  | String _ rest => rest
  end.

(** Value read from a cell. *)
Definition peek (l : loc) (h : heap) : Z := default 0 (h !! l).

(** [argv[i]] *)
Definition argv_at (argv : option (list (option string))) (i : Z)
  : cli_outcome (option string) :=
  match argv with
  | None => Crashed Bad_access
  | Some l =>
      if i <? 0 then Crashed Bad_access
      else match l !! Z.to_nat i with
           | Some a => Returned a
           | None => Crashed Bad_access
           end
  end.

(** [DAY_NAMES[i]] *)
Definition day_name_at (i : Z) : cli_outcome string :=
  if i <? 0 then Crashed Bad_access
  else match DAY_NAMES !! Z.to_nat i with
       | Some s => Returned s
       | None => Crashed Bad_access
       end.

(** The locals of [main] whose address is taken. *)
Definition in_offs : loc := 1%positive.
Definition in_year : loc := 2%positive.
Definition in_month : loc := 3%positive.
Definition in_day : loc := 4%positive.
Definition o_offs : loc := 5%positive.
Definition o_year : loc := 6%positive.
Definition o_month : loc := 7%positive.
Definition o_day : loc := 8%positive.

Definition main_frame : gmap positive Z :=
  <[o_day := 0]> (<[o_month := 0]> (<[o_year := 0]> (<[o_offs := 0]>
  (<[in_day := 0]> (<[in_month := 0]> (<[in_year := 0]>
  (<[in_offs := 0]> ∅))))))).

Section Query.

Variable norm : Z → Z.

Definition c_neg (a : Z) : Z := norm (- a).

(** The digit loop of [parseInt]; one character per iteration, so the
    recursion is on the string.  Returns the final [result], [status] and
    [d]. *)
Fixpoint parse_loop (pstr : string) (result status d : Z) : Z * Z * Z :=
  match pstr with
  | EmptyString => (result, status, d)
  | String ch rest =>
      if Ascii.eqb ch Ascii.zero then (result, status, d)
      else
        let status :=
          if (char_code ch <? char_code "0") || (char_code ch >? char_code "9")
          then 0 else status in
        let d :=
          if truthy status then c_sub norm (char_code ch) (char_code "0")
          else d in
        let '(result, status) :=
          if truthy status then
            if result <=? c_div norm INT32_MAX 10
            then (c_mul norm result 10, status)
            else (result, 0)
          else (result, status) in
        let '(result, status) :=
          if truthy status then
            if result <=? c_sub norm INT32_MAX d
            then (c_add norm result d, status)
            else (result, 0)
          else (result, status) in
        if negb (truthy status) then (result, status, d)
        else parse_loop rest result status d
  end.

Definition parseInt (pstr : option string) (pv : ptr) (h : heap)
  : cli_outcome (Z * heap) :=
  let negflag := 0 in
  let result := 0 in
  let status := 1 in
  let d := 0 in
  match pstr, pv with
  | Some pstr, Some pv =>
      let '(negflag, pstr) :=
        if Ascii.eqb (deref pstr) "+" then (0, advance pstr)
        else if Ascii.eqb (deref pstr) "-" then (1, advance pstr)
        else (0, pstr) in
      let status := if Ascii.eqb (deref pstr) Ascii.zero then 0 else status in
      let '(result, status, d) :=
        if truthy status then parse_loop pstr result status d
        else (result, status, d) in
      let result :=
        if truthy status && truthy negflag then c_neg result else result in
      Returned (status, if truthy status then <[pv := result]> h else h)
  | _, _ => Crashed ParseInt_param
  end.

(** The [for (i = 0; i < argc; i++)] loop of [main]. *)
Fixpoint check_args (fuel : nat) (i argc : Z)
    (argv : option (list (option string))) : cli_outcome unit :=
  if i <? argc then
    match fuel with
    | O => Crashed Main_fuel
    | S fuel' =>
        a ← argv_at argv i;
        match a with
        | None => Crashed Main_argv
        | Some _ => check_args fuel' (c_add norm i 1) argc argv
        end
    end
  else Returned tt.

Definition main (argc : Z) (argv : option (list (option string)))
  : cli_outcome (Z * list event) :=
  let status := 1 in
  let h : gmap positive Z := main_frame in
  let o_wkday := 0 in
  let out : list event := [] in
  pModule ← (if (argc >? 0) && bool_decide (argv ≠ None)
             then argv_at argv 0 else Returned None);
  let pModule :=
    match pModule with
    | Some s => s
    | None => "grcal_query"%string
    end in
  _ ← (if (argc >? 0) && bool_decide (argv = None)
       then Crashed Main_argv else Returned tt);
  _ ← check_args (S (Z.to_nat argc)) 0 argc argv;
  let '(status, out) :=
    if negb (argc =? 2) && negb (argc =? 4)
    then (0, out ++ [Stderr MSG_COUNT [Arg_str pModule]])
    else (status, out) in
  '(status, out) ←
    (if truthy status && (argc =? 2) then
       a1 ← argv_at argv 1;
       '(r, h) ← parseInt a1 (Some in_offs) h;
       let '(status, out) :=
         if negb (truthy r)
         then (0, out ++ [Stderr MSG_PARSE [Arg_str pModule]])
         else (status, out) in
       let '(status, out) :=
         if truthy status then
           if (peek in_offs h <? 0) || (peek in_offs h >? GRCAL_DAY_MAX)
           then (0, out ++ [Stderr MSG_OFFSET_RANGE [Arg_str pModule]])
           else (status, out)
         else (status, out) in
       '(h, o_wkday) ←
         (if truthy status then
            h' ← lift (grcal_offsetToDate norm (peek in_offs h)
                         (Some o_year) (Some o_month) (Some o_day) h);
            w ← lift (grcal_weekday norm (peek in_offs h'));
            Returned (h', w)
          else Returned (h, o_wkday));
       out ←
         (if truthy status then
            name ← day_name_at (c_sub norm o_wkday 1);
            Returned
              (out ++ [Stdout FMT_DATE
                         [Arg_int (peek o_year h); Arg_int (peek o_month h);
                          Arg_int (peek o_day h); Arg_str name]])
          else Returned out);
       Returned (status, out)
     else if truthy status && (argc =? 4) then
       '(status, out, h) ←
         (if truthy status then
            a1 ← argv_at argv 1;
            '(r, h) ← parseInt a1 (Some in_year) h;
            Returned
              (if negb (truthy r)
               then (0, out ++ [Stderr MSG_PARSE_YEAR [Arg_str pModule]], h)
               else (status, out, h))
          else Returned (status, out, h));
       '(status, out, h) ←
         (if truthy status then
            a2 ← argv_at argv 2;
            '(r, h) ← parseInt a2 (Some in_month) h;
            Returned
              (if negb (truthy r)
               then (0, out ++ [Stderr MSG_PARSE_MONTH [Arg_str pModule]], h)
               else (status, out, h))
          else Returned (status, out, h));
       '(status, out, h) ←
         (if truthy status then
            a3 ← argv_at argv 3;
            '(r, h) ← parseInt a3 (Some in_day) h;
            Returned
              (if negb (truthy r)
               then (0, out ++ [Stderr MSG_PARSE_DAY [Arg_str pModule]], h)
               else (status, out, h))
          else Returned (status, out, h));
       let '(status, out) :=
         if truthy status then
           if (peek in_year h <? 0) || (peek in_year h >? 9999)
           then (0, out ++ [Stderr MSG_YEAR_RANGE [Arg_str pModule]])
           else (status, out)
         else (status, out) in
       let '(status, out) :=
         if truthy status then
           if (peek in_month h <? 1) || (peek in_month h >? 12)
           then (0, out ++ [Stderr MSG_MONTH_RANGE [Arg_str pModule]])
           else (status, out)
         else (status, out) in
       let '(status, out) :=
         if truthy status then
           if (peek in_day h <? 1) || (peek in_day h >? 31)
           then (0, out ++ [Stderr MSG_DAY_RANGE [Arg_str pModule]])
           else (status, out)
         else (status, out) in
       '(status, out, h) ←
         (if truthy status then
            '(r, h) ← lift (grcal_dateToOffset norm (Some o_offs)
                              (peek in_year h) (peek in_month h)
                              (peek in_day h) h);
            Returned
              (if negb (truthy r)
               then (0, out ++ [Stderr MSG_INVALID [Arg_str pModule]], h)
               else (status, out, h))
          else Returned (status, out, h));
       let out :=
         if truthy status
         then out ++ [Stdout FMT_OFFSET [Arg_int (peek o_offs h)]]
         else out in
       Returned (status, out)
     else if truthy status then Crashed Main_unreachable
     else Returned (status, out));
  let status := if truthy status then 0 else 1 in
  Returned (status, out).

End Query.

(** *** What [parseInt] reads, said directly *)

Definition is_digit (c : ascii) : bool :=
  (48 <=? char_code c) && (char_code c <=? 57).

(** Value of the digits before the terminator, on top of [acc]; [None] if
    some other character comes first. *)
Fixpoint digits_value (s : string) (acc : Z) : option Z :=
  match s with
  | EmptyString => Some acc
  | String c r =>
      if Ascii.eqb c Ascii.zero then Some acc
      else if is_digit c then digits_value r (10 * acc + (char_code c - 48))
      else None
  end.

(** An optional sign, then at least one digit and only digits, of value at
    most [INT32_MAX]. *)
Definition parse_value (s : string) : option Z :=
  let '(negative, body) :=
    if Ascii.eqb (deref s) "+" then (false, advance s)
    else if Ascii.eqb (deref s) "-" then (true, advance s)
    else (false, s) in
  if Ascii.eqb (deref body) Ascii.zero then None
  else match digits_value body 0 with
       | Some v =>
           if v <=? INT32_MAX then Some (if negative then - v else v)
           else None
       | None => None
       end.

(** [argv] as the C runtime hands it over: all entries present. *)
Definition well_formed_argv (args : list string)
  : option (list (option string)) := Some (map Some args).

(** Whether the digit loop accepts, and with which value. *)
Definition digits_accepted (s : string) (acc : Z) : option Z :=
  match digits_value s acc with
  | Some v => if v <=? INT32_MAX then Some v else None
  | None => None
  end.

(** * Proofs *)

(** ** Basic facts *)

Lemma exact_norm_ok B : norm_ok B exact.
Proof. intros z _. reflexivity. Qed.

Lemma wrap32_small z : INT_MIN <= z <= INT_MAX → wrap32 z = z.
Proof.
  unfold INT_MIN, INT_MAX, wrap32. intros Hz.
  rewrite Z.mod_small by lia. lia.
Qed.

Lemma wrap32_norm_ok : norm_ok INT_MAX wrap32.
Proof.
  intros z Hz. apply wrap32_small. unfold INT_MIN, INT_MAX in *. lia.
Qed.

Lemma wrap32_is_int z : is_int (wrap32 z).
Proof.
  unfold is_int, INT_MIN, INT_MAX, wrap32.
  pose proof (Z.mod_pos_bound (z + 2147483648) 4294967296 ltac:(lia)). lia.
Qed.

Lemma norm_ok_weaken B B' norm : B' <= B → norm_ok B norm → norm_ok B' norm.
Proof. intros HB Hn z Hz. apply Hn. lia. Qed.

Lemma range12 i :
  0 <= i <= 11 →
  i = 0 ∨ i = 1 ∨ i = 2 ∨ i = 3 ∨ i = 4 ∨ i = 5 ∨
  i = 6 ∨ i = 7 ∨ i = 8 ∨ i = 9 ∨ i = 10 ∨ i = 11.
Proof. lia. Qed.

Ltac each_month i H :=
  let E := fresh "E" in
  destruct (range12 i H) as [E|[E|[E|[E|[E|[E|[E|[E|[E|[E|[E|E]]]]]]]]]]];
  subst i.

Lemma monthLength_table i : 0 <= i <= 11 → monthLength i = Done (march_len i).
Proof. intros H. each_month i H; reflexivity. Qed.

Lemma monthLength_abort i :
  ¬ (0 <= i <= 11) → monthLength i = Aborted MonthLength_param.
Proof.
  intros H. unfold monthLength, MONTH_COUNT.
  destruct (Z.ltb_spec i 0); [reflexivity|].
  destruct (Z.geb_spec i 12) as [_|Hlt]; [reflexivity|]. lia.
Qed.

Lemma march_len_cases i :
  0 <= i <= 11 →
  (i = 11 ∧ march_len i = 0) ∨ (i <= 10 ∧ 30 <= march_len i <= 31).
Proof. intros H. each_month i H; simpl; lia. Qed.

Lemma days_before_succ i :
  0 <= i <= 10 → days_before (i + 1) = days_before i + march_len i.
Proof.
  intros H. assert (H' : 0 <= i <= 11) by lia.
  each_month i H'; try reflexivity. lia.
Qed.

Lemma days_before_mono i j :
  0 <= i → i <= j → j <= 11 → days_before i <= days_before j.
Proof.
  intros Hi Hij Hj.
  assert (Hi' : 0 <= i <= 11) by lia. assert (Hj' : 0 <= j <= 11) by lia.
  each_month i Hi'; each_month j Hj'; simpl; lia.
Qed.

Lemma days_before_bound i : 0 <= i <= 11 → 0 <= days_before i <= 337.
Proof. intros H. each_month i H; simpl; lia. Qed.

Lemma quot_rem_nonneg a b :
  0 <= a → 0 < b → a = b * Z.quot a b + Z.rem a b ∧ 0 <= Z.rem a b < b.
Proof.
  intros Ha Hb. split; [apply Z.quot_rem'|apply Z.rem_bound_pos; lia].
Qed.

(** Rewrite one innermost [norm e] to [e], the bound being found by [lia]
    (with the equations of truncated division). *)
Ltac norm_step Hn :=
  match goal with
  | |- context [?n ?e] =>
      lazymatch type of Hn with norm_ok _ n => idtac end;
      lazymatch e with context [n _] => fail | _ => idtac end;
      rewrite (Hn e) by (Z.to_euclidean_division_equations; lia)
  end.

Ltac unfold_ops := unfold c_add, c_sub, c_mul, c_div, c_mod.

Section Helpers.

Variable norm : Z → Z.
Variable B : Z.
Hypothesis HB : 3214073 <= B.
Hypothesis Hn : norm_ok B norm.

Lemma isLeapYear_spec y :
  1 <= y → isLeapYear norm y = Done (if gregorian_leap y then 1 else 0).
Proof using HB Hn.
  intros Hy. unfold isLeapYear, gregorian_leap. unfold_ops.
  destruct (Z.ltb_spec y 1); [lia|].
  repeat norm_step Hn.
  rewrite !Z.rem_mod_nonneg by lia.
  destruct (y mod 400 =? 0), (y mod 4 =? 0), (y mod 100 =? 0); reflexivity.
Qed.

Lemma isLeapYear_abort y : y < 1 → isLeapYear norm y = Aborted IsLeapYear_param.
Proof.
  intros Hy. unfold isLeapYear. destruct (Z.ltb_spec y 1); [reflexivity|lia].
Qed.

(** *** The month walk of [grcal_offsetToDate] *)

Lemma month_walk_stop fuel m d :
  0 <= m <= 11 → 0 <= d → d < march_len m ∨ m = 11 →
  month_walk norm (S fuel) m d = Done (m, d).
Proof.
  intros Hm Hd Hlt. simpl.
  destruct (Z.gtb_spec d 0); [|reflexivity].
  rewrite monthLength_table by assumption. simpl.
  destruct Hlt as [Hlt | ->]; [|reflexivity].
  destruct (Z.eqb_spec (march_len m) 0); [reflexivity|].
  destruct (Z.ltb_spec d (march_len m)); [reflexivity|lia].
Qed.

Lemma month_walk_step fuel m d :
  0 <= m <= 10 → march_len m <= d <= B →
  month_walk norm (S fuel) m d
  = month_walk norm fuel (m + 1) (d - march_len m).
Proof using HB Hn.
  intros Hm Hd.
  destruct (march_len_cases m ltac:(lia)) as [[? _]|[_ Hl]]; [lia|].
  simpl.
  destruct (Z.gtb_spec d 0); [|lia].
  rewrite monthLength_table by lia. simpl.
  destruct (Z.eqb_spec (march_len m) 0); [lia|].
  destruct (Z.ltb_spec d (march_len m)); [lia|].
  simpl. unfold_ops. rewrite !Hn by lia. reflexivity.
Qed.

Lemma month_walk_from k fuel mi d0 :
  (k <= 11)%nat → 0 <= mi → Z.of_nat k + mi <= 11 →
  month_inv (Z.of_nat k + mi) d0 →
  month_walk norm (S (k + fuel)) mi
    (days_before (Z.of_nat k + mi) - days_before mi + d0)
  = Done (Z.of_nat k + mi, d0).
Proof using HB Hn.
  revert mi. induction k as [|k IH]; intros mi Hk Hmi Hle (Hr & Hd0 & Hlen).
  - change (Z.of_nat 0 + mi) with mi in *. simpl plus.
    replace (days_before mi - days_before mi + d0) with d0 by lia.
    apply month_walk_stop; [lia|lia|].
    destruct Hlen as [?|[? _]]; [left|right]; assumption.
  - assert (Hs : Z.of_nat (S k) + mi = Z.of_nat k + (mi + 1)) by lia.
    rewrite Hs in *.
    pose proof (days_before_succ mi ltac:(lia)) as Hsucc.
    pose proof (days_before_bound (Z.of_nat k + (mi + 1)) ltac:(lia)).
    pose proof (days_before_bound mi ltac:(lia)).
    assert (Hmono : days_before (mi + 1) <= days_before (Z.of_nat k + (mi + 1))).
    { apply days_before_mono; lia. }
    assert (Hd0' : d0 <= 30).
    { destruct Hlen as [Hlen|[_ ?]]; [|lia].
      destruct (march_len_cases _ Hr) as [[_ ?]|[_ ?]]; lia. }
    change (S (S k + fuel)) with (S (S (k + fuel))).
    rewrite month_walk_step by lia.
    replace (days_before (Z.of_nat k + (mi + 1)) - days_before mi + d0
             - march_len mi)
      with (days_before (Z.of_nat k + (mi + 1)) - days_before (mi + 1) + d0)
      by lia.
    apply IH; [lia|lia|lia|]. split; [lia|split; [lia|exact Hlen]].
Qed.

(** The walk maps the day-in-year of a (month, day) pair back to it. *)
Lemma month_walk_days mi d0 :
  month_inv mi d0 →
  month_walk norm LOOP_FUEL 0 (days_before mi + d0) = Done (mi, d0).
Proof using HB Hn.
  intros Hi. pose proof Hi as (Hr & _).
  pose proof (month_walk_from (Z.to_nat mi) (12 - Z.to_nat mi) 0 d0) as H.
  rewrite Z2Nat.id, Z.add_0_r in H by lia.
  replace (S (Z.to_nat mi + (12 - Z.to_nat mi))) with LOOP_FUEL in H
    by (unfold LOOP_FUEL; lia).
  change (days_before 0) with 0 in H. rewrite Z.sub_0_r in H.
  apply H; [lia|lia|lia|exact Hi].
Qed.

(** Every day-in-year is the day-in-year of a (month, day) pair. *)
Lemma month_of_day D :
  0 <= D <= 365 → ∃ mi d0, month_inv mi d0 ∧ D = days_before mi + d0.
Proof.
  intros HD. unfold month_inv.
  assert (Hcases :
    D < 31 ∨ 31 <= D < 61 ∨ 61 <= D < 92 ∨ 92 <= D < 122 ∨
    122 <= D < 153 ∨ 153 <= D < 184 ∨ 184 <= D < 214 ∨ 214 <= D < 245 ∨
    245 <= D < 275 ∨ 275 <= D < 306 ∨ 306 <= D < 337 ∨ 337 <= D) by lia.
  destruct Hcases as [H|[H|[H|[H|[H|[H|[H|[H|[H|[H|[H|H]]]]]]]]]]].
  - exists 0, D. simpl. lia.
  - exists 1, (D - 31). simpl. lia.
  - exists 2, (D - 61). simpl. lia.
  - exists 3, (D - 92). simpl. lia.
  - exists 4, (D - 122). simpl. lia.
  - exists 5, (D - 153). simpl. lia.
  - exists 6, (D - 184). simpl. lia.
  - exists 7, (D - 214). simpl. lia.
  - exists 8, (D - 245). simpl. lia.
  - exists 9, (D - 275). simpl. lia.
  - exists 10, (D - 306). simpl. lia.
  - exists 11, (D - 337). simpl. lia.
Qed.

(** *** The month sum of [grcal_dateToOffset] *)

Lemma month_sum_from k fuel x offs :
  (k <= 11)%nat → 0 <= x → x + Z.of_nat k <= 11 →
  0 <= offs → offs + (days_before (x + Z.of_nat k) - days_before x) <= B →
  month_sum norm (k + fuel) x (x + Z.of_nat k) offs
  = Done (offs + (days_before (x + Z.of_nat k) - days_before x)).
Proof using HB Hn.
  revert x offs. induction k as [|k IH]; intros x offs Hk Hx Hle Ho Hb.
  - simpl Z.of_nat. rewrite Z.add_0_r.
    destruct fuel; simpl; rewrite Z.ltb_irrefl; f_equal; lia.
  - assert (Hs : x + Z.of_nat (S k) = (x + 1) + Z.of_nat k) by lia.
    rewrite Hs in *.
    pose proof (days_before_succ x ltac:(lia)) as Hsucc.
    destruct (march_len_cases x ltac:(lia)) as [[? _]|[_ Hl]]; [lia|].
    simpl.
    destruct (Z.ltb_spec x (x + 1 + Z.of_nat k)); [|lia].
    rewrite monthLength_table by lia. simpl. unfold_ops.
    assert (Hmono : days_before (x + 1) <= days_before (x + 1 + Z.of_nat k)).
    { apply days_before_mono; lia. }
    rewrite !Hn by lia.
    rewrite IH by lia. f_equal. lia.
Qed.

Lemma month_sum_days mi offs :
  0 <= mi <= 11 → 0 <= offs → offs + days_before mi <= B →
  month_sum norm LOOP_FUEL 0 mi offs = Done (offs + days_before mi).
Proof using HB Hn.
  intros Hm Ho Hb.
  pose proof (month_sum_from (Z.to_nat mi) (13 - Z.to_nat mi) 0 offs) as H.
  rewrite Z2Nat.id, Z.add_0_l in H by lia.
  replace (Z.to_nat mi + (13 - Z.to_nat mi))%nat with LOOP_FUEL in H
    by (unfold LOOP_FUEL; lia).
  change (days_before 0) with 0 in H. rewrite Z.sub_0_r in H.
  apply H; lia.
Qed.

End Helpers.

(** ** Years *)

Lemma split_days_spec n :
  0 <= n →
  ∃ qc c q y D,
    split_days n = (qc, c, q, y, D) ∧ year_inv qc c q y D ∧
    n = day_index qc c q y D.
Proof.
  intros Hn. unfold split_days, day_index.
  destruct (quot_rem_nonneg n 146097 Hn ltac:(lia)) as [E1 B1].
  set (qc := Z.quot n 146097) in *. set (r1 := Z.rem n 146097) in *.
  clearbody qc r1.
  destruct (quot_rem_nonneg r1 36524 ltac:(lia) ltac:(lia)) as [E2 B2].
  set (c := Z.quot r1 36524) in *. set (r2 := Z.rem r1 36524) in *.
  clearbody c r2.
  destruct (quot_rem_nonneg r2 1461 ltac:(lia) ltac:(lia)) as [E3 B3].
  set (q := Z.quot r2 1461) in *. set (r3 := Z.rem r2 1461) in *.
  clearbody q r3.
  destruct (quot_rem_nonneg r3 365 ltac:(lia) ltac:(lia)) as [E4 B4].
  set (y := Z.quot r3 365) in *. set (d := Z.rem r3 365) in *.
  clearbody y d.
  unfold year_inv.
  assert (0 <= qc) by lia. assert (0 <= c <= 4) by lia.
  assert (0 <= q <= 24) by lia. assert (0 <= y <= 4) by lia.
  destruct (Z.eqb_spec c 4) as [Hc|Hc].
  - exists qc, 3, 24, 3, 365. split; [reflexivity|]. lia.
  - destruct (Z.eqb_spec y 4) as [Hy|Hy].
    + exists qc, c, q, 3, 365. split; [reflexivity|]. lia.
    + exists qc, c, q, y, d. split; [reflexivity|]. lia.
Qed.

Lemma day_index_inj qc c q y D qc' c' q' y' D' :
  year_inv qc c q y D → year_inv qc' c' q' y' D' →
  day_index qc c q y D = day_index qc' c' q' y' D' →
  qc' = qc ∧ c' = c ∧ q' = q ∧ y' = y ∧ D' = D.
Proof.
  unfold year_inv, day_index. intros I I' E.
  assert (qc' = qc) by lia. subst qc'.
  assert (c' = c) by lia. subst c'.
  assert (q' = q) by lia. subst q'.
  assert (y' = y) by lia. subst y'.
  lia.
Qed.

Lemma split_days_inv qc c q y D :
  year_inv qc c q y D →
  split_days (day_index qc c q y D) = (qc, c, q, y, D).
Proof.
  intros I.
  assert (Hn : 0 <= day_index qc c q y D)
    by (unfold year_inv, day_index in *; lia).
  destruct (split_days_spec _ Hn) as (qc' & c' & q' & y' & D' & E & I' & L).
  rewrite E.
  destruct (day_index_inj _ _ _ _ _ _ _ _ _ _ I I' L) as (-> & -> & -> & -> & ->).
  reflexivity.
Qed.

(** The quotient chain of [grcal_dateToOffset] recovers the year counts. *)
Lemma year_parts qc c q y :
  0 <= qc → 0 <= c <= 3 → 0 <= q <= 24 → 0 <= y <= 3 →
  let yo := year_of qc c q y - 1200 in
  Z.quot yo 400 = qc ∧
  Z.quot (Z.rem yo 400) 100 = c ∧
  Z.quot (Z.rem (Z.rem yo 400) 100) 4 = q ∧
  Z.rem (Z.rem (Z.rem yo 400) 100) 4 = y.
Proof.
  intros Hqc Hc Hq Hy yo.
  assert (Hyo : yo = 400 * qc + 100 * c + 4 * q + y)
    by (unfold yo, year_of; lia).
  clearbody yo.
  destruct (quot_rem_nonneg yo 400 ltac:(lia) ltac:(lia)) as [E1 B1].
  set (a := Z.quot yo 400) in *. set (r1 := Z.rem yo 400) in *.
  clearbody a r1.
  destruct (quot_rem_nonneg r1 100 ltac:(lia) ltac:(lia)) as [E2 B2].
  set (b := Z.quot r1 100) in *. set (r2 := Z.rem r1 100) in *.
  clearbody b r2.
  destruct (quot_rem_nonneg r2 4 ltac:(lia) ltac:(lia)) as [E3 B3].
  set (e := Z.quot r2 4) in *. set (r3 := Z.rem r2 4) in *.
  clearbody e r3.
  assert (a = qc) by lia. subst a.
  assert (b = c) by lia. subst b.
  assert (e = q) by lia. subst e.
  lia.
Qed.

(** Every year from 1200 on has year counts. *)
Lemma year_counts Y :
  1200 <= Y →
  ∃ qc c q y,
    0 <= qc ∧ 0 <= c <= 3 ∧ 0 <= q <= 24 ∧ 0 <= y <= 3 ∧
    Y = year_of qc c q y.
Proof.
  intros HY. unfold year_of.
  destruct (quot_rem_nonneg (Y - 1200) 400 ltac:(lia) ltac:(lia)) as [E1 B1].
  set (a := Z.quot (Y - 1200) 400) in *. set (r1 := Z.rem (Y - 1200) 400) in *.
  clearbody a r1.
  destruct (quot_rem_nonneg r1 100 ltac:(lia) ltac:(lia)) as [E2 B2].
  set (b := Z.quot r1 100) in *. set (r2 := Z.rem r1 100) in *.
  clearbody b r2.
  destruct (quot_rem_nonneg r2 4 ltac:(lia) ltac:(lia)) as [E3 B3].
  set (e := Z.quot r2 4) in *. set (r3 := Z.rem r2 4) in *.
  clearbody e r3.
  exists a, b, e, r3. lia.
Qed.

(** The year after March-based year [year_of qc c q y] is leap exactly when
    the counts say a 366th day exists. *)
Lemma leap_year_counts qc c q y :
  0 <= qc → 0 <= c <= 3 → 0 <= q <= 24 → 0 <= y <= 3 →
  gregorian_leap (year_of qc c q y + 1) = true ↔ y = 3 ∧ (q = 24 → c = 3).
Proof.
  intros Hqc Hc Hq Hy. unfold gregorian_leap, year_of.
  set (Y := 1200 + 400 * qc + 100 * c + 4 * q + y + 1).
  assert (H4 : Y mod 4 = (y + 1) mod 4).
  { unfold Y.
    replace (1200 + 400 * qc + 100 * c + 4 * q + y + 1)
      with (y + 1 + (300 + 100 * qc + 25 * c + q) * 4) by lia.
    apply Z.mod_add. lia. }
  assert (H100 : Y mod 100 = (4 * q + y + 1) mod 100).
  { unfold Y.
    replace (1200 + 400 * qc + 100 * c + 4 * q + y + 1)
      with (4 * q + y + 1 + (12 + 4 * qc + c) * 100) by lia.
    apply Z.mod_add. lia. }
  assert (H400 : Y mod 400 = (100 * c + 4 * q + y + 1) mod 400).
  { unfold Y.
    replace (1200 + 400 * qc + 100 * c + 4 * q + y + 1)
      with (100 * c + 4 * q + y + 1 + (3 + qc) * 400) by lia.
    apply Z.mod_add. lia. }
  rewrite H4, H100, H400. clearbody Y. clear H4 H100 H400.
  rewrite orb_true_iff, andb_true_iff, negb_true_iff.
  rewrite !Z.eqb_eq, Z.eqb_neq.
  assert (Hy' : y = 0 ∨ y = 1 ∨ y = 2 ∨ y = 3) by lia.
  pose proof (Z.mod_pos_bound (4 * q + y + 1) 100 ltac:(lia)).
  pose proof (Z.mod_pos_bound (100 * c + 4 * q + y + 1) 400 ltac:(lia)).
  pose proof (Z.div_mod (4 * q + y + 1) 100 ltac:(lia)).
  pose proof (Z.div_mod (100 * c + 4 * q + y + 1) 400 ltac:(lia)).
  pose proof (Z.mod_pos_bound (y + 1) 4 ltac:(lia)).
  pose proof (Z.div_mod (y + 1) 4 ltac:(lia)).
  lia.
Qed.

(** ** The two conversions in March-based coordinates *)

Lemma wrote_date (pY pM pD : ptr) (h : heap) Y M D Y' M' D' :
  D = D' → M = M' → Y = Y' →
  Done (poke pD D (poke pM M (poke pY Y h)))
  = Done (poke pD D' (poke pM M' (poke pY Y' h))).
Proof. intros -> -> ->. reflexivity. Qed.

Ltac unfold_consts :=
  unfold GRCAL_DAY_MAX, DAY_OFFSET, QC_DAYS, C_DAYS, Q_DAYS, Y_DAYS,
    QC_C_COUNT, C_Q_COUNT, Q_Y_COUNT, Y_LEAP_DAYS, QC_YEARS, C_YEARS,
    Q_YEARS, BASE_YEAR, MAX_YEAR, MONTH_OFFSET, MONTH_COUNT,
    LEAP_MONTH_LENGTH, NONLEAP_MONTH_LENGTH, FIRST_MONDAY, WEEK_LENGTH in *.

Section Conversions.

Variable norm : Z → Z.
Variable B : Z.
Hypothesis HB : 3214073 <= B.
Hypothesis Hn : norm_ok B norm.

(** [grcal_offsetToDate] at the day index of well-formed coordinates
    writes the civil date of these coordinates. *)
Lemma offsetToDate_coords qc c q y mi d0 o pY pM pD h :
  year_inv qc c q y (days_before mi + d0) → month_inv mi d0 →
  o + 139750 = day_index qc c q y (days_before mi + d0) →
  0 <= o <= GRCAL_DAY_MAX →
  grcal_offsetToDate norm o pY pM pD h
  = Done (poke pD (d0 + 1)
           (poke pM (civil_month mi)
             (poke pY (civil_year (year_of qc c q y) mi) h))).
Proof using HB Hn.
  intros Iy Im En Ho.
  pose proof (split_days_inv _ _ _ _ _ Iy) as Hs. rewrite <- En in Hs.
  pose proof Iy as (Hqc & Hc & Hq & Hy & HD & _).
  pose proof Im as (Hmi & Hd0 & _).
  pose proof (days_before_bound mi Hmi) as Hdb.
  assert (Hqc' : qc <= 21) by (unfold day_index, GRCAL_DAY_MAX in *; lia).
  unfold grcal_offsetToDate.
  replace ((o <? 0) || (o >? GRCAL_DAY_MAX)) with false
    by (symmetry; apply orb_false_intro; lia).
  unfold_consts. unfold_ops. cbv zeta.
  repeat norm_step Hn.
  unfold split_days in Hs. cbv zeta in Hs.
  change (4 - 1) with 3. change (25 - 1) with 24. change (366 - 1) with 365.
  repeat (destruct (_ =? 4) in Hs |- *).
  all: injection Hs as E1 E2 E3 E4 E5.
  all: rewrite ?E1, ?E5.
  all: try rewrite E2. all: try rewrite E3. all: try rewrite E4.
  all: try subst c; try subst q; try subst y.
  all: repeat norm_step Hn.
  all: rewrite (month_walk_days norm B HB Hn mi d0 Im).
  all: simpl mbind.
  all: repeat norm_step Hn.
  all: unfold civil_month, civil_year, year_of.
  all: destruct (Z.geb_spec (mi + 2) 12), (Z.geb_spec mi 10); try lia.
  all: repeat norm_step Hn.
  all: apply wrote_date; lia.
Qed.

(** Every offset in range is the day index of well-formed coordinates. *)
Lemma offset_coords o :
  0 <= o <= GRCAL_DAY_MAX →
  ∃ qc c q y mi d0,
    year_inv qc c q y (days_before mi + d0) ∧ month_inv mi d0 ∧
    o + 139750 = day_index qc c q y (days_before mi + d0).
Proof.
  intros Ho.
  destruct (split_days_spec (o + 139750) ltac:(unfold GRCAL_DAY_MAX in *; lia))
    as (qc & c & q & y & D & _ & Iy & E).
  destruct (month_of_day D) as (mi & d0 & Im & ->).
  { destruct Iy as (_ & _ & _ & _ & ? & _). assumption. }
  exists qc, c, q, y, mi, d0. auto.
Qed.

End Conversions.

Lemma resolved_len_bound Y mi : 0 <= mi <= 11 → 28 <= resolved_len Y mi <= 31.
Proof.
  intros Hmi. unfold resolved_len.
  destruct (march_len_cases mi Hmi) as [[-> _]|[Hle Hl]].
  - simpl. destruct (gregorian_leap _); lia.
  - destruct (Z.eqb_spec mi 11); lia.
Qed.

Lemma bind_Done {A C : Type} (a : A) (k : A → outcome C) :
  Done a ≫= k = k a.
Proof. reflexivity. Qed.

Ltac flags :=
  repeat (progress (change (truthy 1) with true; change (truthy 0) with false;
                    cbv beta iota)).

Section Composition.

Variable norm : Z → Z.
Variable B : Z.
Hypothesis HB : 3214073 <= B.
Hypothesis Hn : norm_ok B norm.

(** [grcal_dateToOffset] rejects on its range checks without computing
    anything. *)
Lemma dateToOffset_range_fail p year month day h :
  ¬ (1200 < year <= 9999 ∧ 1 <= month <= 12 ∧ 1 <= day) →
  grcal_dateToOffset norm p year month day h = Done (0, h).
Proof.
  intros Hbad. unfold grcal_dateToOffset. unfold_consts.
  destruct ((year <=? 1200) || (month <? 1) || (day <? 1)) eqn:E1.
  { cbv zeta. flags. reflexivity. }
  destruct ((year >? 9999) || (month >? 12)) eqn:E2.
  { cbv zeta. flags. reflexivity. }
  exfalso. apply Hbad.
  rewrite !orb_false_iff in E1, E2. lia.
Qed.

(** Past the range checks, [grcal_dateToOffset] validates the day against
    the month length and returns the day index of the coordinates. *)
Lemma dateToOffset_coords qc c q y mi day p h :
  0 <= qc → 0 <= c <= 3 → 0 <= q <= 24 → 0 <= y <= 3 → 0 <= mi <= 11 →
  1200 < civil_year (year_of qc c q y) mi <= 9999 →
  1 <= day <= B →
  grcal_dateToOffset norm p
    (civil_year (year_of qc c q y) mi) (civil_month mi) day h
  = if day - 1 >=? resolved_len (year_of qc c q y) mi then Done (0, h)
    else
      let o := day_index qc c q y (days_before mi + (day - 1)) - 139750 in
      if (o <? 0) || (o >? GRCAL_DAY_MAX) then Done (0, h)
      else Done (1, poke p o h).
Proof using HB Hn.
  intros Hqc Hc Hq Hy Hmi Hyear Hday.
  pose proof (year_parts qc c q y Hqc Hc Hq Hy) as (P1 & P2 & P3 & P4).
  pose proof (days_before_bound mi Hmi) as Hdb.
  pose proof (resolved_len_bound (year_of qc c q y) mi Hmi) as Hrl.
  assert (HY : year_of qc c q y - 1200 = 400 * qc + 100 * c + 4 * q + y)
    by (unfold year_of; lia).
  unfold day_index. cbv zeta in P1, P2, P3, P4.
  set (Y := year_of qc c q y) in *. clearbody Y.
  assert (Hdb9 : mi <= 9 → days_before mi <= 275).
  { intros ?. each_month mi Hmi; simpl; lia. }
  remember (civil_year Y mi) as year eqn:Eyear.
  remember (civil_month mi) as month eqn:Emonth.
  assert (Hmonth : 1 <= month <= 12).
  { subst month. unfold civil_month. destruct (Z.geb_spec mi 10); lia. }
  assert (Hconv :
    (let month := norm (norm (month - 1) - 2) in
     if month <? 0 then (norm (year - 1), norm (month + 12))
     else (year, month)) = (Y, mi)).
  { cbv zeta. repeat norm_step Hn. subst year month.
    unfold civil_year, civil_month in *.
    destruct (Z.geb_spec mi 10).
    - destruct (Z.ltb_spec (mi - 9 - 1 - 2) 0); [|lia].
      repeat norm_step Hn. f_equal; lia.
    - destruct (Z.ltb_spec (mi + 3 - 1 - 2) 0); [lia|]. f_equal; lia. }
  assert (HYr : 1200 <= Y <= 9999).
  { subst year. unfold civil_year in Hyear. destruct (Z.geb_spec mi 10); lia. }
  assert (HY9 : 10 <= mi → Y <= 9998).
  { subst year. unfold civil_year in Hyear. destruct (Z.geb_spec mi 10); lia. }
  unfold grcal_dateToOffset. unfold_consts. unfold_ops.
  replace ((year <=? 1200) || (month <? 1) || (day <? 1)) with false
    by (symmetry; rewrite !orb_false_iff; repeat split; lia).
  replace ((year >? 9999) || (month >? 12)) with false
    by (symmetry; rewrite !orb_false_iff; repeat split; lia).
  cbv zeta iota. flags. rewrite Hconv. clear Hconv. cbv beta iota.
  rewrite monthLength_table by assumption. rewrite bind_Done.
  repeat norm_step Hn.
  assert (Hlen :
    (if march_len mi =? 0
     then isLeapYear norm (Y + 1)
          ≫= λ leap : Z, Done (if truthy leap then 29 else 28)
     else Done (march_len mi))
    = Done (resolved_len Y mi)).
  { unfold resolved_len.
    destruct (march_len_cases mi Hmi) as [[-> _]|[Hle Hl]].
    - simpl. rewrite (isLeapYear_spec norm B HB Hn) by lia.
      simpl. destruct (gregorian_leap _); reflexivity.
    - destruct (Z.eqb_spec (march_len mi) 0); [lia|].
      destruct (Z.eqb_spec mi 11); [lia|]. reflexivity. }
  rewrite Hlen. clear Hlen. rewrite !bind_Done. cbv beta iota.
  destruct (Z.geb_spec (day - 1) (resolved_len Y mi)) as [Hge|Hlt].
  { flags. rewrite bind_Done. reflexivity. }
  flags. repeat norm_step Hn. rewrite P1, P2, P3, P4.
  assert (Hidx : 0 <= 146097 * qc + 36524 * c + 1461 * q + 365 * y
                 ∧ 146097 * qc + 36524 * c + 1461 * q + 365 * y
                   + days_before mi + resolved_len Y mi - 1 <= 3214073).
  { assert (Hl : mi <= 9 → resolved_len Y mi <= 31) by lia.
    assert (Hl' : mi = 11 → resolved_len Y mi <= 29).
    { intros ->. unfold resolved_len. simpl. destruct (gregorian_leap _); lia. }
    assert (Hd10 : mi = 10 → days_before mi = 306) by (intros ->; reflexivity).
    lia. }
  repeat norm_step Hn.
  rewrite (month_sum_days norm B HB Hn) by lia.
  rewrite bind_Done.
  repeat norm_step Hn.
  cbv zeta. unfold_consts.
  replace (qc * 146097 + c * 36524 + q * 1461 + y * 365 + days_before mi
           + (day - 1) - 139750)
    with (146097 * qc + 36524 * c + 1461 * q + 365 * y
          + (days_before mi + (day - 1)) - 139750) by lia.
  destruct (_ || _); flags; reflexivity.
Qed.

End Composition.

Lemma days_to_month_table mi : 0 <= mi <= 11 → days_to_month mi = days_before mi.
Proof. intros H. each_month mi H; reflexivity. Qed.

Lemma days_to_year_counts qc c q y :
  0 <= qc → 0 <= c <= 3 → 0 <= q <= 24 → 0 <= y <= 3 →
  days_to_year (year_of qc c q y) = day_index qc c q y 0.
Proof.
  intros Hqc Hc Hq Hy.
  pose proof (year_parts qc c q y Hqc Hc Hq Hy) as P. cbv zeta in P.
  unfold days_to_year, day_index. cbv zeta.
  assert (H0 : 0 <= year_of qc c q y - 1200) by (unfold year_of; lia).
  set (yo := year_of qc c q y - 1200) in *. clearbody yo.
  assert (R1 : 0 <= Z.rem yo 400) by (apply Z.rem_nonneg; lia).
  assert (R2 : 0 <= Z.rem (Z.rem yo 400) 100) by (apply Z.rem_nonneg; lia).
  rewrite <- (Z.quot_div_nonneg yo 400), <- (Z.rem_mod_nonneg yo 400) by lia.
  rewrite <- (Z.quot_div_nonneg (Z.rem yo 400) 100),
    <- (Z.rem_mod_nonneg (Z.rem yo 400) 100) by lia.
  rewrite <- (Z.quot_div_nonneg (Z.rem (Z.rem yo 400) 100) 4),
    <- (Z.rem_mod_nonneg (Z.rem (Z.rem yo 400) 100) 4) by lia.
  destruct P as (-> & -> & -> & ->). lia.
Qed.

Lemma march_based_civil Y mi :
  0 <= mi <= 11 → march_based (civil_year Y mi) (civil_month mi) = (Y, mi).
Proof.
  intros H. unfold march_based, civil_year, civil_month. cbv zeta.
  destruct (Z.geb_spec mi 10).
  - destruct (Z.ltb_spec (mi - 9 - 1 - 2) 0); [|lia]. f_equal; lia.
  - destruct (Z.ltb_spec (mi + 3 - 1 - 2) 0); [lia|]. f_equal; lia.
Qed.

Lemma resolved_len_civil Y mi :
  0 <= mi <= 11 →
  resolved_len Y mi = civil_month_length (civil_year Y mi) (civil_month mi).
Proof. intros H. each_month mi H; reflexivity. Qed.

(** Every year after 1200 and month in 1..12 is the civil reading of a
    March-based pair. *)
Lemma civil_coords year month :
  1200 < year → 1 <= month <= 12 →
  ∃ qc c q y mi,
    0 <= qc ∧ 0 <= c <= 3 ∧ 0 <= q <= 24 ∧ 0 <= y <= 3 ∧ 0 <= mi <= 11 ∧
    year = civil_year (year_of qc c q y) mi ∧ month = civil_month mi.
Proof.
  intros Hy Hm.
  destruct (Z.ltb_spec month 3).
  - destruct (year_counts (year - 1) ltac:(lia)) as (qc & c & q & y & ? & ? & ? & ? & E).
    exists qc, c, q, y, (month + 9). rewrite <- E.
    unfold civil_year, civil_month.
    destruct (Z.geb_spec (month + 9) 10); [|lia]. repeat split; lia.
  - destruct (year_counts year ltac:(lia)) as (qc & c & q & y & ? & ? & ? & ? & E).
    exists qc, c, q, y, (month - 3). rewrite <- E.
    unfold civil_year, civil_month.
    destruct (Z.geb_spec (month - 3) 10); [lia|]. repeat split; lia.
Qed.

Lemma computed_offset_coords qc c q y mi day :
  0 <= qc → 0 <= c <= 3 → 0 <= q <= 24 → 0 <= y <= 3 → 0 <= mi <= 11 →
  computed_offset (civil_year (year_of qc c q y) mi) (civil_month mi) day
  = day_index qc c q y (days_before mi + (day - 1)) - 139750.
Proof.
  intros Hqc Hc Hq Hy Hmi. unfold computed_offset.
  rewrite march_based_civil by assumption.
  rewrite days_to_year_counts, days_to_month_table by assumption.
  unfold day_index. lia.
Qed.

Lemma date_ok_true year month day :
  date_ok year month day = true ↔
  1200 < year <= 9999 ∧ 1 <= month <= 12 ∧
  1 <= day <= civil_month_length year month ∧
  0 <= computed_offset year month day <= GRCAL_DAY_MAX.
Proof.
  unfold date_ok. rewrite !andb_true_iff, !Z.ltb_lt, !Z.leb_le. tauto.
Qed.

Lemma days_before_february mi : 0 <= mi <= 10 → days_before mi + march_len mi <= 337.
Proof. intros H. assert (H' : 0 <= mi <= 11) by lia. each_month mi H'; simpl; lia. Qed.

Lemma days_before_january mi : 0 <= mi <= 11 → (10 <= mi ↔ 306 <= days_before mi).
Proof. intros H. each_month mi H; simpl; lia. Qed.

(** A date that passes the day-of-month check has well-formed
    coordinates. *)
Lemma coords_of_valid_day qc c q y mi d0 :
  0 <= qc → 0 <= c <= 3 → 0 <= q <= 24 → 0 <= y <= 3 → 0 <= mi <= 11 →
  0 <= d0 < resolved_len (year_of qc c q y) mi →
  year_inv qc c q y (days_before mi + d0) ∧ month_inv mi d0.
Proof.
  intros Hqc Hc Hq Hy Hmi Hd.
  pose proof (days_before_bound mi Hmi) as Hdb.
  pose proof (leap_year_counts qc c q y Hqc Hc Hq Hy) as Hleap.
  unfold resolved_len in Hd. unfold year_inv, month_inv.
  destruct (Z.eqb_spec mi 11) as [->|Hne].
  - change (days_before 11) with 337.
    destruct (gregorian_leap (year_of qc c q y + 1)).
    + assert (y = 3 ∧ (q = 24 → c = 3)) by (apply Hleap; reflexivity). lia.
    + lia.
  - pose proof (days_before_february mi ltac:(lia)). lia.
Qed.

(** Well-formed coordinates pass the day-of-month check. *)
Lemma valid_day_of_coords qc c q y mi d0 :
  year_inv qc c q y (days_before mi + d0) → month_inv mi d0 →
  0 <= d0 < resolved_len (year_of qc c q y) mi.
Proof.
  intros (Hqc & Hc & Hq & Hy & HD & Hl) (Hmi & Hd0 & Hlen).
  pose proof (leap_year_counts qc c q y Hqc Hc Hq Hy) as Hleap.
  unfold resolved_len.
  destruct (Z.eqb_spec mi 11) as [->|Hne].
  - change (days_before 11) with 337 in *.
    destruct (gregorian_leap (year_of qc c q y + 1)); [lia|].
    assert (d0 <> 28); [|lia].
    intros ->. assert (E : true = false); [|discriminate E].
    rewrite <- (proj2 Hleap); [reflexivity|]. apply Hl. reflexivity.
  - destruct Hlen as [?|[? _]]; lia.
Qed.

Lemma classic_range year month day :
  (1200 < year <= 9999 ∧ 1 <= month <= 12 ∧ 1 <= day) ∨
  ¬ (1200 < year <= 9999 ∧ 1 <= month <= 12 ∧ 1 <= day).
Proof. lia. Qed.

Section Main.

Variable norm : Z → Z.
Variable B : Z.
Hypothesis HB : 3214073 <= B.
Hypothesis Hn : norm_ok B norm.

(** [grcal_dateToOffset] as a validator-plus-converter. *)
Lemma dateToOffset_spec p year month day h :
  day <= B →
  grcal_dateToOffset norm p year month day h
  = if date_ok year month day
    then Done (1, poke p (computed_offset year month day) h)
    else Done (0, h).
Proof using HB Hn.
  intros Hday.
  destruct (classic_range year month day) as [Hr|Hr].
  2:{ rewrite dateToOffset_range_fail by assumption.
      destruct (date_ok year month day) eqn:E; [|reflexivity].
      apply date_ok_true in E. exfalso. apply Hr. lia. }
  destruct Hr as (Hy & Hm & Hd).
  destruct (civil_coords year month ltac:(lia) Hm)
    as (qc & c & q & y & mi & Hqc & Hc & Hq & Hyy & Hmi & -> & ->).
  rewrite (dateToOffset_coords norm B HB Hn) by (assumption || lia).
  cbv zeta.
  rewrite <- computed_offset_coords by assumption.
  rewrite resolved_len_civil by assumption.
  set (Y := civil_year (year_of qc c q y) mi).
  set (M := civil_month mi).
  destruct (date_ok Y M day) eqn:E.
  - apply date_ok_true in E.
    destruct (Z.geb_spec (day - 1) (civil_month_length Y M)); [lia|].
    destruct (Z.ltb_spec (computed_offset Y M day) 0); [lia|].
    destruct (Z.gtb_spec (computed_offset Y M day) GRCAL_DAY_MAX); [lia|].
    reflexivity.
  - destruct (Z.geb_spec (day - 1) (civil_month_length Y M)); [reflexivity|].
    destruct (Z.ltb_spec (computed_offset Y M day) 0); [reflexivity|].
    destruct (Z.gtb_spec (computed_offset Y M day) GRCAL_DAY_MAX);
      [reflexivity|].
    exfalso. assert (E' : date_ok Y M day = true); [|congruence].
    apply date_ok_true. fold Y M in Hy, Hm. lia.
Qed.

(** Decomposition inverts composition. *)
Lemma offsetToDate_of_date year month day pY pM pD h :
  date_ok year month day = true →
  grcal_offsetToDate norm (computed_offset year month day) pY pM pD h
  = Done (poke pD day (poke pM month (poke pY year h))).
Proof using HB Hn.
  intros Hok. apply date_ok_true in Hok. destruct Hok as (Hy & Hm & Hd & Ho).
  destruct (civil_coords year month ltac:(lia) Hm)
    as (qc & c & q & y & mi & Hqc & Hc & Hq & Hyy & Hmi & -> & ->).
  rewrite <- resolved_len_civil in Hd by assumption.
  rewrite computed_offset_coords in * by assumption.
  destruct (coords_of_valid_day qc c q y mi (day - 1)) as [Iy Im];
    try assumption; [lia|].
  rewrite (offsetToDate_coords norm B HB Hn qc c q y mi (day - 1))
    by (assumption || lia).
  apply wrote_date; [lia|reflexivity|reflexivity].
Qed.

(** Every offset in range is the computed offset of the valid date that
    decomposition writes. *)
Lemma date_of_offset o :
  0 <= o <= GRCAL_DAY_MAX →
  ∃ year month day,
    date_ok year month day = true ∧ computed_offset year month day = o ∧
    1582 <= year ∧
    ∀ pY pM pD h,
      grcal_offsetToDate norm o pY pM pD h
      = Done (poke pD day (poke pM month (poke pY year h))).
Proof using HB Hn.
  intros Ho.
  destruct (offset_coords o Ho) as (qc & c & q & y & mi & d0 & Iy & Im & E).
  exists (civil_year (year_of qc c q y) mi), (civil_month mi), (d0 + 1).
  pose proof (valid_day_of_coords _ _ _ _ _ _ Iy Im) as Hd.
  pose proof Iy as (Hqc & Hc & Hq & Hy & HD & _).
  pose proof Im as (Hmi & Hd0 & _).
  pose proof (days_before_january mi Hmi) as Hjan.
  assert (Hco :
    computed_offset (civil_year (year_of qc c q y) mi) (civil_month mi)
      (d0 + 1) = o).
  { rewrite computed_offset_coords by assumption.
    replace (d0 + 1 - 1) with d0 by lia. lia. }
  assert (Hyr : 1582 <= civil_year (year_of qc c q y) mi <= 9999).
  { unfold civil_year, year_of, day_index, GRCAL_DAY_MAX in *.
    destruct (Z.geb_spec mi 10); lia. }
  split; [|split; [exact Hco|split; [lia|]]].
  - apply date_ok_true. rewrite Hco.
    rewrite <- resolved_len_civil by assumption.
    unfold civil_month. destruct (Z.geb_spec mi 10); lia.
  - intros pY pM pD h.
    apply (offsetToDate_coords norm B HB Hn); assumption.
Qed.

End Main.

(** ** Weekday and loop bounds *)

Lemma weekday_spec norm B o :
  3214073 <= B → norm_ok B norm → 0 <= o <= GRCAL_DAY_MAX →
  grcal_weekday norm o
  = Done (((if o <? 3 then o + 7 else o) - 3) mod 7 + 1).
Proof.
  intros HB Hn Ho. unfold grcal_weekday. unfold_consts. unfold_ops.
  replace ((o <? 0) || (o >? 3074323)) with false
    by (symmetry; apply orb_false_intro; lia).
  cbv zeta.
  destruct (Z.ltb_spec o 3).
  - repeat norm_step Hn. rewrite Z.rem_mod_nonneg by lia. reflexivity.
  - repeat norm_step Hn. rewrite Z.rem_mod_nonneg by lia. reflexivity.
Qed.

(** The fuel given to the two loops is never used up, whatever the
    arguments: the month index reaches 12 first, where [monthLength]
    aborts. *)
Lemma month_walk_finishes norm :
  (∀ m, 0 <= m <= 11 → norm (m + 1) = m + 1) →
  ∀ fuel m d,
    0 <= m <= 12 → 13 <= Z.of_nat fuel + m →
    month_walk norm fuel m d ≠ Unfinished.
Proof.
  intros Hinc fuel. induction fuel as [|fuel IH]; intros m d Hm Hf.
  - simpl in Hf. lia.
  - simpl. destruct (d >? 0); [|discriminate].
    destruct (Z.eq_dec m 12) as [->|Hne]; [discriminate|].
    rewrite monthLength_table by lia. rewrite bind_Done.
    destruct ((march_len m =? 0) || (d <? march_len m)); [discriminate|].
    unfold c_add at 1. rewrite Hinc by lia. apply IH; lia.
Qed.

Lemma month_sum_finishes norm :
  (∀ m, 0 <= m <= 11 → norm (m + 1) = m + 1) →
  ∀ fuel x month offs,
    0 <= x <= 12 → 13 <= Z.of_nat fuel + x →
    month_sum norm fuel x month offs ≠ Unfinished.
Proof.
  intros Hinc fuel. induction fuel as [|fuel IH]; intros x month offs Hx Hf.
  - simpl in Hf. lia.
  - simpl. destruct (x <? month); [|discriminate].
    destruct (Z.eq_dec x 12) as [->|Hne]; [discriminate|].
    rewrite monthLength_table by lia. rewrite bind_Done.
    unfold c_add at 1. rewrite Hinc by lia. apply IH; lia.
Qed.

Lemma wrap32_ok_3214073 : norm_ok 3214073 wrap32.
Proof. apply (norm_ok_weaken INT_MAX); [unfold INT_MAX; lia|]. exact wrap32_norm_ok. Qed.

Lemma INT_MAX_large : 3214073 <= INT_MAX.
Proof. unfold INT_MAX. lia. Qed.

Lemma Done_inj {A : Type} (a b : A) : Done a = Done b → a = b.
Proof. intros H. injection H. auto. Qed.

Lemma date_written_inj year month day year' month' day' :
  (∀ (pY pM pD : ptr) (h : heap),
     @Done (gmap positive Z) (poke pD day (poke pM month (poke pY year h)))
     = Done (poke pD day' (poke pM month' (poke pY year' h)))) →
  (year', month', day') = (year, month, day).
Proof.
  intros H.
  pose proof (H (Some 1%positive) None None ∅) as Hy.
  pose proof (H None (Some 1%positive) None ∅) as Hm.
  pose proof (H None None (Some 1%positive) ∅) as Hd.
  simpl in Hy, Hm, Hd.
  assert (Hget : ∀ a b : Z,
    @Done (gmap positive Z) (<[1%positive := a]> ∅) = Done (<[1%positive := b]> ∅) → b = a).
  { intros a b E. apply Done_inj in E.
    assert (E' : (<[1%positive := a]> (∅ : gmap positive Z)) !! 1%positive
                 = (<[1%positive := b]> (∅ : gmap positive Z)) !! 1%positive)
      by (rewrite E; reflexivity).
    rewrite !lookup_insert_eq in E'. congruence. }
  rewrite (Hget _ _ Hy), (Hget _ _ Hm), (Hget _ _ Hd). reflexivity.
Qed.

(** ** 32-bit instances *)

(** A successful composition through a non-NULL pointer accepted a valid
    date and stored its computed offset. *)
Lemma dateToOffset_success l year month day h r h' o :
  is_int day →
  grcal_dateToOffset wrap32 (Some l) year month day h = Done (r, h') →
  r ≠ 0 → h' !! l = Some o →
  date_ok year month day = true ∧ computed_offset year month day = o.
Proof.
  intros Hd E Hr Hl.
  rewrite (dateToOffset_spec wrap32 INT_MAX INT_MAX_large wrap32_norm_ok) in E
    by apply Hd.
  destruct (date_ok year month day).
  - apply Done_inj in E. injection E as <- <-. simpl in Hl.
    rewrite lookup_insert_eq in Hl. split; [reflexivity|congruence].
  - apply Done_inj in E. injection E as <- <-. congruence.
Qed.

Lemma gregorian_leap_divides y :
  gregorian_leap y = true ↔
  Z.divide 400 y ∨ (Z.divide 4 y ∧ ¬ Z.divide 100 y).
Proof.
  unfold gregorian_leap.
  rewrite orb_true_iff, andb_true_iff, negb_true_iff, !Z.eqb_eq, Z.eqb_neq.
  rewrite !Z.mod_divide by lia. tauto.
Qed.

(** ** The claims *)

(** C1. For every day offset [o] in [0, 3074323], [grcal_offsetToDate]
    writes a (year, month, day) triple on which [grcal_dateToOffset]
    succeeds and returns exactly [o]; and that triple is the only one whose
    composition yields [o]. *)
Theorem offset_date_offset_roundtrip (o : Z) :
  0 <= o <= GRCAL_DAY_MAX →
  ∃ year month day,
    (∀ (pYear pMonth pDayOfMonth : ptr) (h : heap),
       grcal_offsetToDate wrap32 o pYear pMonth pDayOfMonth h
       = Done (poke pDayOfMonth day (poke pMonth month (poke pYear year h))))
    ∧ (∀ (pOffs : ptr) (h : heap),
         grcal_dateToOffset wrap32 pOffs year month day h
         = Done (1, poke pOffs o h))
    ∧ (∀ year' month' day' (l : loc) (h h' : heap) r,
         is_int year' → is_int month' → is_int day' →
         grcal_dateToOffset wrap32 (Some l) year' month' day' h
         = Done (r, h') →
         r ≠ 0 → h' !! l = Some o →
         (year', month', day') = (year, month, day)).
Proof.
  intros Ho.
  destruct (date_of_offset wrap32 INT_MAX INT_MAX_large wrap32_norm_ok o Ho)
    as (year & month & day & Hok & Hco & _ & Hdec).
  exists year, month, day. split; [exact Hdec|split].
  - intros pOffs h.
    rewrite (dateToOffset_spec wrap32 INT_MAX INT_MAX_large wrap32_norm_ok).
    + rewrite Hok, Hco. reflexivity.
    + apply date_ok_true in Hok.
      assert (civil_month_length year month <= 31); [|unfold INT_MAX; lia].
      unfold civil_month_length.
      destruct (month =? 2); [destruct (gregorian_leap year); lia|].
      destruct (_ || _); lia.
  - intros year' month' day' l h h' r _ _ Hd' E Hr Hl.
    destruct (dateToOffset_success _ _ _ _ _ _ _ _ Hd' E Hr Hl) as [Hok' Hco'].
    apply date_written_inj. intros pY pM pD h0.
    rewrite <- Hdec. rewrite <- Hco'.
    apply (offsetToDate_of_date wrap32 INT_MAX INT_MAX_large wrap32_norm_ok).
    exact Hok'.
Qed.

Lemma offset_date_offset_roundtrip_witness :
  ∃ year month day,
    (∀ (pYear pMonth pDayOfMonth : ptr) (h : heap),
       grcal_offsetToDate wrap32 141427 pYear pMonth pDayOfMonth h
       = Done (poke pDayOfMonth day (poke pMonth month (poke pYear year h))))
    ∧ (∀ (pOffs : ptr) (h : heap),
         grcal_dateToOffset wrap32 pOffs year month day h
         = Done (1, poke pOffs 141427 h))
    ∧ (∀ year' month' day' (l : loc) (h h' : heap) r,
         is_int year' → is_int month' → is_int day' →
         grcal_dateToOffset wrap32 (Some l) year' month' day' h
         = Done (r, h') →
         r ≠ 0 → h' !! l = Some 141427 →
         (year', month', day') = (year, month, day)).
Proof.
  apply (offset_date_offset_roundtrip 141427). unfold GRCAL_DAY_MAX. lia.
Defined.

(** C2. For every (year, month, day) on which [grcal_dateToOffset]
    succeeds with offset [o], [grcal_offsetToDate] applied to [o] writes
    exactly the same year, month and day. *)
Theorem date_offset_date_roundtrip
    year month day (l : loc) (h h' : heap) r o :
  is_int year → is_int month → is_int day →
  grcal_dateToOffset wrap32 (Some l) year month day h = Done (r, h') →
  r ≠ 0 → h' !! l = Some o →
  ∀ (pYear pMonth pDayOfMonth : ptr) (h0 : heap),
    grcal_offsetToDate wrap32 o pYear pMonth pDayOfMonth h0
    = Done (poke pDayOfMonth day (poke pMonth month (poke pYear year h0))).
Proof.
  intros _ _ Hd E Hr Hl pY pM pD h0.
  destruct (dateToOffset_success _ _ _ _ _ _ _ _ Hd E Hr Hl) as [Hok <-].
  apply (offsetToDate_of_date wrap32 INT_MAX INT_MAX_large wrap32_norm_ok).
  exact Hok.
Qed.

Lemma date_offset_date_roundtrip_witness :
  grcal_offsetToDate wrap32 152443
    (Some 1%positive) (Some 2%positive) (Some 3%positive) ∅
  = Done (poke (Some 3%positive) 29
            (poke (Some 2%positive) 2 (poke (Some 1%positive) 2000 ∅))).
Proof.
  apply (date_offset_date_roundtrip 2000 2 29 1%positive ∅
           (<[1%positive := 152443]> ∅) 1 152443).
  - unfold is_int, INT_MIN, INT_MAX. lia.
  - unfold is_int, INT_MIN, INT_MAX. lia.
  - unfold is_int, INT_MIN, INT_MAX. lia.
  - vm_compute. reflexivity.
  - lia.
  - vm_compute. reflexivity.
Defined.

Lemma validation_failure_date_ok year month day :
  validation_failure year month day ↔ date_ok year month day = false.
Proof.
  unfold validation_failure. rewrite <- not_true_iff_false, date_ok_true. lia.
Qed.

Lemma is_int_le z : is_int z → z <= INT_MAX.
Proof. intros [_ H]. exact H. Qed.

(** C3. [grcal_dateToOffset] returns zero exactly when the input violates
    a validation condition and otherwise succeeds with the computed
    offset; the four sample dates of the specification are rejected. *)
Theorem dateToOffset_fails_exactly (pOffs : ptr) year month day (h : heap) :
  is_int year → is_int month → is_int day →
  (validation_failure year month day →
   grcal_dateToOffset wrap32 pOffs year month day h = Done (0, h))
  ∧ (¬ validation_failure year month day →
     grcal_dateToOffset wrap32 pOffs year month day h
     = Done (1, poke pOffs (computed_offset year month day) h))
  ∧ grcal_dateToOffset wrap32 pOffs 1582 10 14 h = Done (0, h)
  ∧ grcal_dateToOffset wrap32 pOffs 1200 1 1 h = Done (0, h)
  ∧ grcal_dateToOffset wrap32 pOffs 2023 13 1 h = Done (0, h)
  ∧ grcal_dateToOffset wrap32 pOffs 2023 4 31 h = Done (0, h).
Proof.
  intros _ _ Hd.
  rewrite !(dateToOffset_spec wrap32 INT_MAX INT_MAX_large wrap32_norm_ok)
    by (apply is_int_le; assumption || (unfold is_int, INT_MIN, INT_MAX; lia)).
  rewrite validation_failure_date_ok.
  repeat split.
  - intros ->. reflexivity.
  - intros Hv. destruct (date_ok year month day); [reflexivity|].
    exfalso. apply Hv. reflexivity.
Qed.

Lemma dateToOffset_fails_exactly_witness :
  (validation_failure 1900 2 29 →
   grcal_dateToOffset wrap32 None 1900 2 29 ∅ = Done (0, ∅))
  ∧ (¬ validation_failure 1900 2 29 →
     grcal_dateToOffset wrap32 None 1900 2 29 ∅
     = Done (1, poke None (computed_offset 1900 2 29) ∅))
  ∧ grcal_dateToOffset wrap32 None 1582 10 14 ∅ = Done (0, ∅)
  ∧ grcal_dateToOffset wrap32 None 1200 1 1 ∅ = Done (0, ∅)
  ∧ grcal_dateToOffset wrap32 None 2023 13 1 ∅ = Done (0, ∅)
  ∧ grcal_dateToOffset wrap32 None 2023 4 31 ∅ = Done (0, ∅).
Proof.
  apply (dateToOffset_fails_exactly None 1900 2 29 ∅);
    unfold is_int, INT_MIN, INT_MAX; lia.
Defined.

(** C4. [grcal_dateToOffset] never aborts, whatever its integer inputs:
    it always returns.  A helper aborts exactly when its precondition is
    violated (an index outside 0..11 for [monthLength], an argument below 1
    for [isLeapYear]) and an abort of a helper is an abort of the caller, so
    every helper call of every execution satisfies its precondition.  Past
    the range checks, the month-conversion step yields an index in 0..11
    and the argument handed to [isLeapYear] is at least 1. *)
Theorem dateToOffset_never_aborts (pOffs : ptr) year month day (h : heap) :
  is_int year → is_int month → is_int day →
  (∃ r h', grcal_dateToOffset wrap32 pOffs year month day h = Done (r, h'))
  ∧ (∀ i, (∃ f, monthLength i = Aborted f) ↔ ¬ (0 <= i <= 11))
  ∧ (∀ i, monthLength i ≠ Aborted MonthLength_pattern)
  ∧ (∀ y, (∃ f, isLeapYear wrap32 y = Aborted f) ↔ y < 1)
  ∧ (∀ {A C : Type} (m : outcome A) (k : A → outcome C) f,
       m = Aborted f → m ≫= k = Aborted f)
  ∧ (BASE_YEAR < year <= MAX_YEAR → 1 <= month <= MONTH_COUNT →
     let month' := c_sub wrap32 (c_sub wrap32 month 1) MONTH_OFFSET in
     let '(year', month') :=
       if month' <? 0
       then (c_sub wrap32 year 1, c_add wrap32 month' MONTH_COUNT)
       else (year, month') in
     0 <= month' <= 11 ∧ 1 <= c_add wrap32 year' 1).
Proof.
  intros _ _ Hd. split; [|split; [|split; [|split; [|split]]]].
  - rewrite (dateToOffset_spec wrap32 INT_MAX INT_MAX_large wrap32_norm_ok)
      by (apply is_int_le; assumption).
    destruct (date_ok year month day); eauto.
  - intros i. split.
    + intros [f Hf] Hi. rewrite monthLength_table in Hf by assumption.
      discriminate.
    + intros Hi. exists MonthLength_param. apply monthLength_abort. exact Hi.
  - intros i Hi.
    destruct (Z.le_gt_cases 0 i) as [H0|H0];
      [destruct (Z.le_gt_cases i 11) as [H1|H1]|].
    + rewrite monthLength_table in Hi by lia. discriminate.
    + rewrite monthLength_abort in Hi by lia. discriminate.
    + rewrite monthLength_abort in Hi by lia. discriminate.
  - intros y. split.
    + intros [f Hf]. destruct (Z.lt_ge_cases y 1) as [H1|H1]; [assumption|].
      rewrite (isLeapYear_spec wrap32 INT_MAX INT_MAX_large wrap32_norm_ok)
        in Hf by assumption.
      discriminate.
    + intros Hy'. exists IsLeapYear_param. apply isLeapYear_abort. exact Hy'.
  - intros A C m k f ->. reflexivity.
  - intros Hyear Hmonth. unfold_consts. unfold_ops.
    pose proof wrap32_ok_3214073 as Hn. cbv zeta.
    repeat norm_step Hn.
    destruct (Z.ltb_spec (month - 1 - 2) 0);
      repeat norm_step Hn; lia.
Qed.

Lemma dateToOffset_never_aborts_witness :
  (∃ r h', grcal_dateToOffset wrap32 (Some 1%positive)
             2024 2 2147483647 ∅ = Done (r, h'))
  ∧ (∀ i, (∃ f, monthLength i = Aborted f) ↔ ¬ (0 <= i <= 11))
  ∧ (∀ i, monthLength i ≠ Aborted MonthLength_pattern)
  ∧ (∀ y, (∃ f, isLeapYear wrap32 y = Aborted f) ↔ y < 1)
  ∧ (∀ {A C : Type} (m : outcome A) (k : A → outcome C) f,
       m = Aborted f → m ≫= k = Aborted f)
  ∧ (BASE_YEAR < 2024 <= MAX_YEAR → 1 <= 2 <= MONTH_COUNT →
     let month' := c_sub wrap32 (c_sub wrap32 2 1) MONTH_OFFSET in
     let '(year', month') :=
       if month' <? 0
       then (c_sub wrap32 2024 1, c_add wrap32 month' MONTH_COUNT)
       else (2024, month') in
     0 <= month' <= 11 ∧ 1 <= c_add wrap32 year' 1).
Proof.
  apply (dateToOffset_never_aborts (Some 1%positive)
           2024 2 2147483647 ∅);
    unfold is_int, INT_MIN, INT_MAX; lia.
Defined.

(** C5. For every year [y >= 1] the leap-year predicate returns non-zero
    exactly when [y] is divisible by 400, or by 4 and not by 100; so
    2000-02-29 is accepted and 1900-02-29 is rejected. *)
Theorem isLeapYear_gregorian (y : Z) :
  1 <= y →
  (∃ r, isLeapYear wrap32 y = Done r
        ∧ (r ≠ 0 ↔ Z.divide 400 y ∨ (Z.divide 4 y ∧ ¬ Z.divide 100 y)))
  ∧ (∀ (pOffs : ptr) (h : heap),
       grcal_dateToOffset wrap32 pOffs 2000 2 29 h
       = Done (1, poke pOffs 152443 h))
  ∧ (∀ (pOffs : ptr) (h : heap),
       grcal_dateToOffset wrap32 pOffs 1900 2 29 h = Done (0, h)).
Proof.
  intros Hy. split; [|split].
  - rewrite (isLeapYear_spec wrap32 INT_MAX INT_MAX_large wrap32_norm_ok)
      by assumption.
    pose proof (gregorian_leap_divides y) as Hdiv.
    destruct (gregorian_leap y).
    + exists 1. split; [reflexivity|]. split; [intros _; apply Hdiv; reflexivity|discriminate].
    + exists 0. split; [reflexivity|]. split; [congruence|].
      intros H. apply Hdiv in H. discriminate H.
  - intros pOffs h.
    rewrite (dateToOffset_spec wrap32 INT_MAX INT_MAX_large wrap32_norm_ok)
      by (unfold INT_MAX; lia).
    reflexivity.
  - intros pOffs h.
    rewrite (dateToOffset_spec wrap32 INT_MAX INT_MAX_large wrap32_norm_ok)
      by (unfold INT_MAX; lia).
    reflexivity.
Qed.

Lemma isLeapYear_gregorian_witness :
  (∃ r, isLeapYear wrap32 2024 = Done r
        ∧ (r ≠ 0 ↔ Z.divide 400 2024
                    ∨ (Z.divide 4 2024 ∧ ¬ Z.divide 100 2024)))
  ∧ (∀ (pOffs : ptr) (h : heap),
       grcal_dateToOffset wrap32 pOffs 2000 2 29 h
       = Done (1, poke pOffs 152443 h))
  ∧ (∀ (pOffs : ptr) (h : heap),
       grcal_dateToOffset wrap32 pOffs 1900 2 29 h = Done (0, h)).
Proof.
  apply (isLeapYear_gregorian 2024). lia.
Defined.

(** C6. Boundary anchors: offset 0 is 1582-10-15, a Friday (weekday 5);
    offset 3074323, the largest one, is 9999-12-31; offset 141427, the
    exposed Unix-epoch constant, is 1970-01-01. *)
Theorem boundary_anchors :
  (∀ (pYear pMonth pDayOfMonth : ptr) (h : heap),
     grcal_offsetToDate wrap32 0 pYear pMonth pDayOfMonth h
     = Done (poke pDayOfMonth 15 (poke pMonth 10 (poke pYear 1582 h))))
  ∧ grcal_weekday wrap32 0 = Done 5
  ∧ weekday_name 5 = Some Friday
  ∧ (∀ (pYear pMonth pDayOfMonth : ptr) (h : heap),
       grcal_offsetToDate wrap32 3074323 pYear pMonth pDayOfMonth h
       = Done (poke pDayOfMonth 31 (poke pMonth 12 (poke pYear 9999 h))))
  ∧ GRCAL_DAY_MAX = 3074323
  ∧ (∀ (pYear pMonth pDayOfMonth : ptr) (h : heap),
       grcal_offsetToDate wrap32 GRCAL_DAY_UNIX pYear pMonth pDayOfMonth h
       = Done (poke pDayOfMonth 1 (poke pMonth 1 (poke pYear 1970 h))))
  ∧ GRCAL_DAY_UNIX = 141427.
Proof.
  repeat split; intros; reflexivity.
Qed.

(** C7. For every offset [o] in [0, 3074323], [grcal_weekday] returns
    [((o' - 3) mod 7) + 1] where [o' = o + 7] if [o < 3] and [o' = o]
    otherwise; the result lies in 1..7, 1 naming Monday and 7 Sunday. *)
Theorem weekday_formula (o : Z) :
  0 <= o <= GRCAL_DAY_MAX →
  let o' := if o <? 3 then o + 7 else o in
  grcal_weekday wrap32 o = Done ((o' - 3) mod 7 + 1)
  ∧ 1 <= (o' - 3) mod 7 + 1 <= 7
  ∧ is_Some (weekday_name ((o' - 3) mod 7 + 1))
  ∧ weekday_name 1 = Some Monday
  ∧ weekday_name 7 = Some Sunday.
Proof.
  intros Ho o'.
  assert (Hr : 1 <= (o' - 3) mod 7 + 1 <= 7).
  { pose proof (Z.mod_pos_bound (o' - 3) 7 ltac:(lia)). lia. }
  split; [|split; [exact Hr|split; [|split; reflexivity]]].
  - exact (weekday_spec wrap32 INT_MAX o INT_MAX_large wrap32_norm_ok Ho).
  - set (w := (o' - 3) mod 7 + 1) in *. clearbody w.
    assert (Hw : w = 1 ∨ w = 2 ∨ w = 3 ∨ w = 4 ∨ w = 5 ∨ w = 6 ∨ w = 7) by lia.
    destruct Hw as [->|[->|[->|[->|[->|[->| ->]]]]]]; eexists; reflexivity.
Qed.

Lemma weekday_formula_witness :
  grcal_weekday wrap32 2 = Done ((2 + 7 - 3) mod 7 + 1)
  ∧ 1 <= (2 + 7 - 3) mod 7 + 1 <= 7
  ∧ is_Some (weekday_name ((2 + 7 - 3) mod 7 + 1))
  ∧ weekday_name 1 = Some Monday
  ∧ weekday_name 7 = Some Sunday.
Proof.
  apply (weekday_formula 2). unfold GRCAL_DAY_MAX. lia.
Defined.

(** C8. [grcal_dateToOffset] writes nothing through its output pointer
    unless every validation step passes, touches no other cell, and returns
    the same verdict when the caller passes NULL to validate only. *)
Theorem dateToOffset_no_partial_output
    (l : loc) year month day (h : heap) :
  is_int year → is_int month → is_int day →
  ∃ r h',
    grcal_dateToOffset wrap32 (Some l) year month day h = Done (r, h')
    ∧ (r = 0 → h' = h)
    ∧ (∀ l', l' ≠ l → h' !! l' = h !! l')
    ∧ grcal_dateToOffset wrap32 None year month day h = Done (r, h).
Proof.
  intros _ _ Hd.
  rewrite !(dateToOffset_spec wrap32 INT_MAX INT_MAX_large wrap32_norm_ok)
    by (apply is_int_le; assumption).
  destruct (date_ok year month day).
  - eexists _, _. split; [reflexivity|]. split; [discriminate|].
    split; [|reflexivity].
    intros l' Hne. simpl. apply lookup_insert_ne. congruence.
  - eexists _, _. split; [reflexivity|]. split; [reflexivity|].
    split; reflexivity.
Qed.

Lemma dateToOffset_no_partial_output_witness :
  ∃ r h',
    grcal_dateToOffset wrap32 (Some 1%positive) 2023 4 31 {[ 1%positive := 7 ]}
    = Done (r, h')
    ∧ (r = 0 → h' = {[ 1%positive := 7 ]})
    ∧ (∀ l', l' ≠ 1%positive →
             h' !! l' = ({[ 1%positive := 7 ]} : gmap positive Z) !! l')
    ∧ grcal_dateToOffset wrap32 None 2023 4 31 {[ 1%positive := 7 ]}
      = Done (r, {[ 1%positive := 7 ]}).
Proof.
  apply (dateToOffset_no_partial_output 1%positive 2023 4 31
           {[ 1%positive := 7 ]});
    unfold is_int, INT_MIN, INT_MAX; lia.
Defined.

(** C9. For every offset [o] in [0, 3074323], the triple written by
    [grcal_offsetToDate] is a well-formed calendar date: year in
    1582..9999, month in 1..12, day in 1..length of that month in that
    year, with February 29 only in leap years. *)
Theorem offsetToDate_well_formed (o : Z) :
  0 <= o <= GRCAL_DAY_MAX →
  ∃ year month day,
    (∀ (pYear pMonth pDayOfMonth : ptr) (h : heap),
       grcal_offsetToDate wrap32 o pYear pMonth pDayOfMonth h
       = Done (poke pDayOfMonth day (poke pMonth month (poke pYear year h))))
    ∧ 1582 <= year <= 9999
    ∧ 1 <= month <= 12
    ∧ 1 <= day <= civil_month_length year month
    ∧ (month = 2 → day = 29 → gregorian_leap year = true).
Proof.
  intros Ho.
  destruct (date_of_offset wrap32 INT_MAX INT_MAX_large wrap32_norm_ok o Ho)
    as (year & month & day & Hok & _ & Hy & Hdec).
  apply date_ok_true in Hok. destruct Hok as (Hyr & Hm & Hd & _).
  exists year, month, day.
  split; [exact Hdec|]. split; [lia|]. split; [exact Hm|]. split; [exact Hd|].
  intros -> ->. unfold civil_month_length in Hd. simpl in Hd.
  destruct (gregorian_leap year); [reflexivity|lia].
Qed.

Lemma offsetToDate_well_formed_witness :
  ∃ year month day,
    (∀ (pYear pMonth pDayOfMonth : ptr) (h : heap),
       grcal_offsetToDate wrap32 152443 pYear pMonth pDayOfMonth h
       = Done (poke pDayOfMonth day (poke pMonth month (poke pYear year h))))
    ∧ 1582 <= year <= 9999
    ∧ 1 <= month <= 12
    ∧ 1 <= day <= civil_month_length year month
    ∧ (month = 2 → day = 29 → gregorian_leap year = true).
Proof.
  apply (offsetToDate_well_formed 152443). unfold GRCAL_DAY_MAX. lia.
Defined.

Lemma clobber_norm_ok k : 0 < k → norm_ok (k - 1) (clobber k).
Proof.
  intros Hk z Hz. unfold clobber. destruct (Z.eqb_spec z k); [lia|reflexivity].
Qed.

Lemma offsetToDate_norm_exact norm :
  norm_ok 3214073 norm →
  ∀ o (pY pM pD : ptr) (h : heap),
    0 <= o <= GRCAL_DAY_MAX →
    grcal_offsetToDate norm o pY pM pD h
    = grcal_offsetToDate exact o pY pM pD h.
Proof.
  intros Hn o pY pM pD h Ho.
  destruct (date_of_offset norm 3214073 ltac:(lia) Hn o Ho)
    as (year & month & day & Hok & Hco & _ & Hdec).
  rewrite Hdec, <- Hco. symmetry.
  apply (offsetToDate_of_date exact 3214073 ltac:(lia) (exact_norm_ok _)).
  exact Hok.
Qed.

Lemma dateToOffset_norm_exact norm B :
  3214073 <= B → norm_ok B norm →
  ∀ (p : ptr) year month day (h : heap),
    day <= B →
    grcal_dateToOffset norm p year month day h
    = grcal_dateToOffset exact p year month day h.
Proof.
  intros HB Hn p year month day h Hd.
  rewrite (dateToOffset_spec norm B HB Hn) by assumption.
  rewrite (dateToOffset_spec exact B HB (exact_norm_ok _)) by assumption.
  reflexivity.
Qed.

(** C10. No overflow.  Every intermediate value of [grcal_offsetToDate]
    (on an offset in range) and of [grcal_dateToOffset] (on a day of month
    up to 3214073, which covers every accepted date) has magnitude at most
    3074323 + 139750 = 3214073: a normalisation that leaves such values
    alone computes what exact arithmetic computes.  In particular 32-bit
    wrap-around arithmetic agrees with exact arithmetic, for
    [grcal_dateToOffset] on all [int] inputs.  The bound is reached: the
    result changes when the value 3214073 alone is disturbed. *)
Theorem no_overflow (norm : Z → Z) :
  norm_ok 3214073 norm →
  (∀ o (pYear pMonth pDayOfMonth : ptr) (h : heap),
     0 <= o <= GRCAL_DAY_MAX →
     grcal_offsetToDate norm o pYear pMonth pDayOfMonth h
     = grcal_offsetToDate exact o pYear pMonth pDayOfMonth h)
  ∧ (∀ (pOffs : ptr) year month day (h : heap),
       day <= 3214073 →
       grcal_dateToOffset norm pOffs year month day h
       = grcal_dateToOffset exact pOffs year month day h)
  ∧ (∀ o (pYear pMonth pDayOfMonth : ptr) (h : heap),
       0 <= o <= GRCAL_DAY_MAX →
       grcal_offsetToDate wrap32 o pYear pMonth pDayOfMonth h
       = grcal_offsetToDate exact o pYear pMonth pDayOfMonth h)
  ∧ (∀ (pOffs : ptr) year month day (h : heap),
       is_int year → is_int month → is_int day →
       grcal_dateToOffset wrap32 pOffs year month day h
       = grcal_dateToOffset exact pOffs year month day h)
  ∧ 3074323 + 139750 = 3214073
  ∧ norm_ok 3214072 (clobber 3214073)
  ∧ grcal_offsetToDate (clobber 3214073) GRCAL_DAY_MAX
      (Some 1%positive) None None ∅
    ≠ grcal_offsetToDate exact GRCAL_DAY_MAX (Some 1%positive) None None ∅.
Proof.
  intros Hn.
  split; [exact (offsetToDate_norm_exact norm Hn)|].
  split; [intros; apply (dateToOffset_norm_exact norm 3214073);
          [lia|assumption|assumption]|].
  split; [exact (offsetToDate_norm_exact wrap32 wrap32_ok_3214073)|].
  split; [intros pOffs year month day h _ _ Hd;
          apply (dateToOffset_norm_exact wrap32 INT_MAX INT_MAX_large
                   wrap32_norm_ok);
          apply is_int_le; exact Hd|].
  split; [reflexivity|].
  split; [exact (clobber_norm_ok 3214073 ltac:(lia))|].
  intros E. apply Done_inj in E.
  assert (E' : (<[1%positive := 1200]> (∅ : gmap positive Z)) !! 1%positive
               = (<[1%positive := 9999]> (∅ : gmap positive Z)) !! 1%positive).
  { f_equal. exact E. }
  rewrite !lookup_insert_eq in E'. discriminate E'.
Qed.

Lemma no_overflow_witness :
  (∀ o (pYear pMonth pDayOfMonth : ptr) (h : heap),
     0 <= o <= GRCAL_DAY_MAX →
     grcal_offsetToDate wrap32 o pYear pMonth pDayOfMonth h
     = grcal_offsetToDate exact o pYear pMonth pDayOfMonth h)
  ∧ (∀ (pOffs : ptr) year month day (h : heap),
       day <= 3214073 →
       grcal_dateToOffset wrap32 pOffs year month day h
       = grcal_dateToOffset exact pOffs year month day h)
  ∧ (∀ o (pYear pMonth pDayOfMonth : ptr) (h : heap),
       0 <= o <= GRCAL_DAY_MAX →
       grcal_offsetToDate wrap32 o pYear pMonth pDayOfMonth h
       = grcal_offsetToDate exact o pYear pMonth pDayOfMonth h)
  ∧ (∀ (pOffs : ptr) year month day (h : heap),
       is_int year → is_int month → is_int day →
       grcal_dateToOffset wrap32 pOffs year month day h
       = grcal_dateToOffset exact pOffs year month day h)
  ∧ 3074323 + 139750 = 3214073
  ∧ norm_ok 3214072 (clobber 3214073)
  ∧ grcal_offsetToDate (clobber 3214073) GRCAL_DAY_MAX
      (Some 1%positive) None None ∅
    ≠ grcal_offsetToDate exact GRCAL_DAY_MAX (Some 1%positive) None None ∅.
Proof.
  apply (no_overflow wrap32).
  intros z Hz. apply wrap32_small. unfold INT_MIN, INT_MAX. lia.
Defined.

(** * Further coverage: order, succession, and the command-line wrapper *)

Lemma year_of_inj qc c q y qc' c' q' y' :
  0 <= c <= 3 → 0 <= q <= 24 → 0 <= y <= 3 →
  0 <= c' <= 3 → 0 <= q' <= 24 → 0 <= y' <= 3 →
  year_of qc c q y = year_of qc' c' q' y' →
  qc' = qc ∧ c' = c ∧ q' = q ∧ y' = y.
Proof.
  unfold year_of. intros.
  assert (qc' = qc) by lia. subst qc'.
  assert (c' = c) by lia. subst c'.
  assert (q' = q) by lia. subst q'.
  lia.
Qed.

Lemma year_of_lt_index qc c q y D qc' c' q' y' D' :
  year_inv qc c q y D → year_inv qc' c' q' y' D' →
  year_of qc c q y < year_of qc' c' q' y' →
  day_index qc c q y D < day_index qc' c' q' y' D'.
Proof.
  unfold year_inv, year_of, day_index. intros I I' H.
  assert (Hc : qc < qc' ∨ qc = qc') by lia.
  destruct Hc as [Hc|<-]; [lia|].
  assert (Hc : c < c' ∨ c = c') by lia.
  destruct Hc as [Hc|<-]; [lia|].
  assert (Hc : q < q' ∨ q = q') by lia.
  destruct Hc as [Hc|<-]; lia.
Qed.

(** *** Chronological order in coordinates *)

Lemma day_in_year_lt mi d0 mi' d0' :
  month_inv mi d0 → month_inv mi' d0' →
  mi < mi' → days_before mi + d0 < days_before mi' + d0'.
Proof.
  intros (Hmi & Hd & Hl) (Hmi' & Hd' & _) Hlt.
  pose proof (days_before_succ mi ltac:(lia)) as Hs.
  pose proof (days_before_mono (mi + 1) mi' ltac:(lia) ltac:(lia) ltac:(lia)).
  destruct Hl as [?|[? _]]; lia.
Qed.

Lemma civil_order_index qc c q y mi d0 qc' c' q' y' mi' d0' :
  year_inv qc c q y (days_before mi + d0) → month_inv mi d0 →
  year_inv qc' c' q' y' (days_before mi' + d0') → month_inv mi' d0' →
  date_before (civil_year (year_of qc c q y) mi) (civil_month mi) (d0 + 1)
    (civil_year (year_of qc' c' q' y') mi') (civil_month mi') (d0' + 1) →
  day_index qc c q y (days_before mi + d0)
  < day_index qc' c' q' y' (days_before mi' + d0').
Proof.
  intros Iy Im Iy' Im' Hb.
  pose proof Im as (Hmi & _). pose proof Im' as (Hmi' & _).
  assert (Hcase :
    year_of qc c q y < year_of qc' c' q' y' ∨
    (year_of qc c q y = year_of qc' c' q' y' ∧
     (mi < mi' ∨ (mi = mi' ∧ d0 < d0')))).
  { unfold date_before, civil_year, civil_month in Hb.
    destruct (Z.geb_spec mi 10), (Z.geb_spec mi' 10); lia. }
  destruct Hcase as [Hlt|[Heq Hm]].
  - apply year_of_lt_index; assumption.
  - destruct Iy as (? & ? & ? & ? & ? & ?), Iy' as (? & ? & ? & ? & ? & ?).
    destruct (year_of_inj qc c q y qc' c' q' y') as (-> & -> & -> & ->);
      try assumption.
    unfold day_index.
    destruct Hm as [Hm|[-> Hd]]; [|lia].
    pose proof (day_in_year_lt mi d0 mi' d0' Im Im' Hm). lia.
Qed.

(** A date with a valid day of month, whatever its offset. *)
Lemma valid_day_coords year month day :
  1200 < year → 1 <= month <= 12 →
  1 <= day <= civil_month_length year month →
  ∃ qc c q y mi,
    year_inv qc c q y (days_before mi + (day - 1)) ∧ month_inv mi (day - 1) ∧
    year = civil_year (year_of qc c q y) mi ∧ month = civil_month mi ∧
    computed_offset year month day
    = day_index qc c q y (days_before mi + (day - 1)) - 139750.
Proof.
  intros Hy Hm Hd.
  destruct (civil_coords year month Hy Hm)
    as (qc & c & q & y & mi & Hqc & Hc & Hq & Hyy & Hmi & -> & ->).
  rewrite <- resolved_len_civil in Hd by assumption.
  destruct (coords_of_valid_day qc c q y mi (day - 1)) as [Iy Im];
    try assumption; [lia|].
  exists qc, c, q, y, mi.
  split; [exact Iy|split; [exact Im|split; [reflexivity|split; [reflexivity|]]]].
  apply computed_offset_coords; assumption.
Qed.

Lemma computed_offset_before y1 m1 d1 y2 m2 d2 :
  1200 < y1 → 1 <= m1 <= 12 → 1 <= d1 <= civil_month_length y1 m1 →
  1200 < y2 → 1 <= m2 <= 12 → 1 <= d2 <= civil_month_length y2 m2 →
  date_before y1 m1 d1 y2 m2 d2 →
  computed_offset y1 m1 d1 < computed_offset y2 m2 d2.
Proof.
  intros Hy1 Hm1 Hd1 Hy2 Hm2 Hd2 Hb.
  destruct (valid_day_coords y1 m1 d1 Hy1 Hm1 Hd1)
    as (qc & c & q & y & mi & Iy & Im & E1 & E2 & ->).
  destruct (valid_day_coords y2 m2 d2 Hy2 Hm2 Hd2)
    as (qc' & c' & q' & y' & mi' & Iy' & Im' & E1' & E2' & ->).
  subst y1 m1 y2 m2.
  replace d1 with (d1 - 1 + 1) in Hb by lia.
  replace d2 with (d2 - 1 + 1) in Hb by lia.
  pose proof (civil_order_index _ _ _ _ _ _ _ _ _ _ _ _ Iy Im Iy' Im' Hb).
  lia.
Qed.

Lemma date_before_trichotomy y1 m1 d1 y2 m2 d2 :
  date_before y1 m1 d1 y2 m2 d2 ∨ (y1, m1, d1) = (y2, m2, d2) ∨
  date_before y2 m2 d2 y1 m1 d1.
Proof.
  unfold date_before.
  destruct (Z.lt_trichotomy y1 y2) as [?|[->|?]]; [lia| |lia].
  destruct (Z.lt_trichotomy m1 m2) as [?|[->|?]]; [lia| |lia].
  destruct (Z.lt_trichotomy d1 d2) as [?|[->|?]]; [lia| |lia].
  right. left. reflexivity.
Qed.

Lemma computed_offset_before_iff y1 m1 d1 y2 m2 d2 :
  1200 < y1 → 1 <= m1 <= 12 → 1 <= d1 <= civil_month_length y1 m1 →
  1200 < y2 → 1 <= m2 <= 12 → 1 <= d2 <= civil_month_length y2 m2 →
  computed_offset y1 m1 d1 < computed_offset y2 m2 d2 ↔
  date_before y1 m1 d1 y2 m2 d2.
Proof.
  intros Hy1 Hm1 Hd1 Hy2 Hm2 Hd2. split.
  - intros Hlt.
    destruct (date_before_trichotomy y1 m1 d1 y2 m2 d2) as [H|[H|H]].
    + exact H.
    + injection H as -> -> ->. lia.
    + pose proof (computed_offset_before _ _ _ _ _ _ Hy2 Hm2 Hd2 Hy1 Hm1 Hd1 H).
      lia.
  - apply computed_offset_before; assumption.
Qed.

Lemma civil_month_length_bound year month :
  28 <= civil_month_length year month <= 31.
Proof.
  unfold civil_month_length.
  destruct (month =? 2); [destruct (gregorian_leap year); lia|].
  destruct (_ || _); lia.
Qed.

(** The dates [grcal_dateToOffset] accepts, without reference to the
    offset: valid days from 1582-10-15 to the end of 9999. *)
Lemma date_ok_calendar year month day :
  date_ok year month day = true ↔
  1 <= month <= 12 ∧ 1 <= day <= civil_month_length year month ∧
  year <= 9999 ∧ ¬ date_before year month day 1582 10 15.
Proof.
  rewrite date_ok_true. unfold GRCAL_DAY_MAX.
  pose proof (civil_month_length_bound year month) as Hlen.
  split.
  - intros (Hy & Hm & Hd & Ho). repeat split; try lia.
    intros Hb.
    pose proof (computed_offset_before year month day 1582 10 15
                  ltac:(lia) Hm Hd ltac:(lia) ltac:(lia)
                  ltac:(vm_compute; split; discriminate) Hb) as Hlt.
    change (computed_offset 1582 10 15) with 0 in Hlt. lia.
  - intros (Hm & Hd & Hy & Hnb).
    assert (Hy' : 1200 < year) by (unfold date_before in Hnb; lia).
    repeat split; try lia.
    + destruct (Z.lt_ge_cases (computed_offset year month day) 0) as [Hlt|]; [|lia].
      exfalso. apply Hnb.
      apply (computed_offset_before_iff year month day 1582 10 15);
        try assumption; try lia.
      vm_compute; split; discriminate.
    + destruct (Z.le_gt_cases (computed_offset year month day) 3074323)
        as [|Hgt]; [lia|].
      exfalso.
      change 3074323 with (computed_offset 9999 12 31) in Hgt.
      apply (computed_offset_before_iff 9999 12 31 year month day) in Hgt;
        try assumption; try lia.
      * unfold date_before in Hgt. lia.
      * vm_compute; split; discriminate.
Qed.

(** *** The day after *)

Lemma next_year_counts qc c q y :
  0 <= qc → 0 <= c <= 3 → 0 <= q <= 24 → 0 <= y <= 3 →
  ∃ qc' c' q' y',
    0 <= qc' ∧ 0 <= c' <= 3 ∧ 0 <= q' <= 24 ∧ 0 <= y' <= 3 ∧
    year_of qc' c' q' y' = year_of qc c q y + 1 ∧
    day_index qc' c' q' y' 0
    = day_index qc c q y
        (if gregorian_leap (year_of qc c q y + 1) then 366 else 365).
Proof.
  intros Hqc Hc Hq Hy.
  pose proof (leap_year_counts qc c q y Hqc Hc Hq Hy) as Hleap.
  destruct (gregorian_leap (year_of qc c q y + 1)).
  - assert (Hl : y = 3 ∧ (q = 24 → c = 3)) by (apply Hleap; reflexivity).
    destruct Hl as [-> Hl].
    destruct (Z.eq_dec q 24) as [->|Hq24].
    + rewrite (Hl eq_refl). exists (qc + 1), 0, 0, 0.
      unfold year_of, day_index. lia.
    + exists qc, c, (q + 1), 0. unfold year_of, day_index. lia.
  - assert (Hl : ¬ (y = 3 ∧ (q = 24 → c = 3))).
    { intros H. apply Hleap in H. discriminate H. }
    destruct (Z.eq_dec y 3) as [->|Hy3].
    + assert (q = 24 ∧ c <> 3) as [-> Hc3] by lia.
      exists qc, (c + 1), 0, 0. unfold year_of, day_index. lia.
    + exists qc, c, q, (y + 1). unfold year_of, day_index. lia.
Qed.

Lemma coords_succ qc c q y mi d0 :
  year_inv qc c q y (days_before mi + d0) → month_inv mi d0 →
  ∃ qc' c' q' y' mi' d0',
    year_inv qc' c' q' y' (days_before mi' + d0') ∧ month_inv mi' d0' ∧
    day_index qc' c' q' y' (days_before mi' + d0')
    = day_index qc c q y (days_before mi + d0) + 1 ∧
    (civil_year (year_of qc' c' q' y') mi', civil_month mi', d0' + 1)
    = next_day (civil_year (year_of qc c q y) mi) (civil_month mi) (d0 + 1).
Proof.
  intros Iy Im.
  pose proof (valid_day_of_coords _ _ _ _ _ _ Iy Im) as Hd.
  pose proof Iy as (Hqc & Hc & Hq & Hy & _).
  pose proof Im as (Hmi & _).
  unfold next_day. rewrite <- resolved_len_civil by assumption.
  destruct (Z.ltb_spec (d0 + 1) (resolved_len (year_of qc c q y) mi))
    as [Hlt|Hge].
  - destruct (coords_of_valid_day qc c q y mi (d0 + 1)) as [Iy' Im'];
      try assumption; [lia|].
    exists qc, c, q, y, mi, (d0 + 1).
    split; [exact Iy'|split; [exact Im'|split; [unfold day_index; lia|]]].
    reflexivity.
  - assert (Hlast : d0 + 1 = resolved_len (year_of qc c q y) mi) by lia.
    destruct (Z.eq_dec mi 11) as [->|Hne].
    + destruct (next_year_counts qc c q y Hqc Hc Hq Hy)
        as (qc' & c' & q' & y' & Hqc' & Hc' & Hq' & Hy' & EY & EI).
      destruct (coords_of_valid_day qc' c' q' y' 0 0) as [Iy' Im'];
        try assumption; try lia.
      { pose proof (resolved_len_bound (year_of qc' c' q' y') 0 ltac:(lia)). lia. }
      exists qc', c', q', y', 0, 0.
      split; [exact Iy'|split; [exact Im'|split]].
      * change (days_before 0 + 0) with 0. rewrite EI.
        unfold resolved_len in Hlast. simpl in Hlast.
        change (days_before 11) with 337. unfold day_index.
        destruct (gregorian_leap (year_of qc c q y + 1)); lia.
      * rewrite EY. reflexivity.
    + pose proof (days_before_succ mi ltac:(lia)) as Hs.
      assert (Hrl : resolved_len (year_of qc c q y) mi = march_len mi).
      { unfold resolved_len. destruct (Z.eqb_spec mi 11); [lia|reflexivity]. }
      destruct (coords_of_valid_day qc c q y (mi + 1) 0) as [Iy' Im'];
        try assumption; try lia.
      { pose proof (resolved_len_bound (year_of qc c q y) (mi + 1) ltac:(lia)).
        lia. }
      exists qc, c, q, y, (mi + 1), 0.
      split; [exact Iy'|split; [exact Im'|split; [unfold day_index; lia|]]].
      unfold civil_year, civil_month.
      destruct (Z.geb_spec mi 10), (Z.geb_spec (mi + 1) 10),
        (Z.ltb_spec (mi - 9) 12), (Z.ltb_spec (mi + 3) 12);
        try lia; f_equal; try f_equal; lia.
Qed.

(** *** The 400-year period *)

Lemma coords_shift_400 qc c q y mi d0 :
  year_inv qc c q y (days_before mi + d0) →
  year_inv (qc + 1) c q y (days_before mi + d0) ∧
  day_index (qc + 1) c q y (days_before mi + d0)
  = day_index qc c q y (days_before mi + d0) + 146097 ∧
  civil_year (year_of (qc + 1) c q y) mi
  = civil_year (year_of qc c q y) mi + 400.
Proof.
  unfold year_inv, day_index, civil_year, year_of. intros I.
  destruct (mi >=? 10); lia.
Qed.

(** ** Further properties of grcal.c *)

(** X1. The weekday advances by one step of the Monday..Sunday cycle from
    each offset to the next. *)
Theorem weekday_advances (o : Z) :
  0 <= o < GRCAL_DAY_MAX →
  ∃ w, grcal_weekday wrap32 o = Done w
       ∧ grcal_weekday wrap32 (o + 1) = Done (w mod 7 + 1).
Proof.
  intros Ho. pose proof (eq_refl : GRCAL_DAY_MAX = 3074323) as HM.
  rewrite (weekday_spec wrap32 INT_MAX o INT_MAX_large wrap32_norm_ok)
    by lia.
  rewrite (weekday_spec wrap32 INT_MAX (o + 1) INT_MAX_large wrap32_norm_ok)
    by lia.
  eexists. split; [reflexivity|]. f_equal.
  destruct (Z.ltb_spec o 3), (Z.ltb_spec (o + 1) 3);
    Z.to_euclidean_division_equations; lia.
Qed.

Lemma weekday_advances_witness :
  ∃ w, grcal_weekday wrap32 2 = Done w
       ∧ grcal_weekday wrap32 (2 + 1) = Done (w mod 7 + 1).
Proof. apply (weekday_advances 2). unfold GRCAL_DAY_MAX. lia. Defined.

(** X2. Consecutive offsets are consecutive calendar days: the date of
    [o + 1] is the day after the date of [o] (next day of the month, else
    first of the next month, else January 1 of the next year). *)
Theorem offsetToDate_next_day (o : Z) :
  0 <= o < GRCAL_DAY_MAX →
  ∃ year month day year' month' day',
    next_day year month day = (year', month', day')
    ∧ (∀ (pYear pMonth pDayOfMonth : ptr) (h : heap),
         grcal_offsetToDate wrap32 o pYear pMonth pDayOfMonth h
         = Done (poke pDayOfMonth day
                   (poke pMonth month (poke pYear year h))))
    ∧ (∀ (pYear pMonth pDayOfMonth : ptr) (h : heap),
         grcal_offsetToDate wrap32 (o + 1) pYear pMonth pDayOfMonth h
         = Done (poke pDayOfMonth day'
                   (poke pMonth month' (poke pYear year' h)))).
Proof.
  intros Ho. pose proof (eq_refl : GRCAL_DAY_MAX = 3074323) as HM.
  destruct (offset_coords o ltac:(lia))
    as (qc & c & q & y & mi & d0 & Iy & Im & E).
  destruct (coords_succ _ _ _ _ _ _ Iy Im)
    as (qc' & c' & q' & y' & mi' & d0' & Iy' & Im' & E' & Hnext).
  eexists _, _, _, _, _, _. split; [symmetry; exact Hnext|split].
  - intros pY pM pD h.
    apply (offsetToDate_coords wrap32 INT_MAX INT_MAX_large wrap32_norm_ok
             qc c q y mi d0); try assumption; lia.
  - intros pY pM pD h.
    apply (offsetToDate_coords wrap32 INT_MAX INT_MAX_large wrap32_norm_ok
             qc' c' q' y' mi' d0'); try assumption; lia.
Qed.

Lemma offsetToDate_next_day_witness :
  ∃ year month day year' month' day',
    next_day year month day = (year', month', day')
    ∧ (∀ (pYear pMonth pDayOfMonth : ptr) (h : heap),
         grcal_offsetToDate wrap32 152443 pYear pMonth pDayOfMonth h
         = Done (poke pDayOfMonth day
                   (poke pMonth month (poke pYear year h))))
    ∧ (∀ (pYear pMonth pDayOfMonth : ptr) (h : heap),
         grcal_offsetToDate wrap32 (152443 + 1) pYear pMonth pDayOfMonth h
         = Done (poke pDayOfMonth day'
                   (poke pMonth month' (poke pYear year' h)))).
Proof. apply (offsetToDate_next_day 152443). unfold GRCAL_DAY_MAX. lia. Defined.

(** X3. The calendar repeats every 146097 days: the date 146097 days
    later has the same month and day, the year 400 later, and falls on the
    same weekday. *)
Theorem calendar_repeats_after_400_years (o : Z) :
  0 <= o → o + 146097 <= GRCAL_DAY_MAX →
  ∃ year month day w,
    (∀ (pYear pMonth pDayOfMonth : ptr) (h : heap),
       grcal_offsetToDate wrap32 o pYear pMonth pDayOfMonth h
       = Done (poke pDayOfMonth day (poke pMonth month (poke pYear year h))))
    ∧ (∀ (pYear pMonth pDayOfMonth : ptr) (h : heap),
         grcal_offsetToDate wrap32 (o + 146097) pYear pMonth pDayOfMonth h
         = Done (poke pDayOfMonth day
                   (poke pMonth month (poke pYear (year + 400) h))))
    ∧ grcal_weekday wrap32 o = Done w
    ∧ grcal_weekday wrap32 (o + 146097) = Done w.
Proof.
  intros Ho Hmax. pose proof (eq_refl : GRCAL_DAY_MAX = 3074323) as HM.
  destruct (offset_coords o ltac:(lia))
    as (qc & c & q & y & mi & d0 & Iy & Im & E).
  destruct (coords_shift_400 _ _ _ _ _ _ Iy) as (Iy' & E' & EY).
  rewrite !(weekday_spec wrap32 INT_MAX _ INT_MAX_large wrap32_norm_ok)
    by lia.
  exists (civil_year (year_of qc c q y) mi), (civil_month mi), (d0 + 1).
  eexists. split; [|split; [|split; [reflexivity|]]].
  - intros pY pM pD h.
    apply (offsetToDate_coords wrap32 INT_MAX INT_MAX_large wrap32_norm_ok
             qc c q y mi d0); try assumption; lia.
  - intros pY pM pD h. rewrite <- EY.
    apply (offsetToDate_coords wrap32 INT_MAX INT_MAX_large wrap32_norm_ok
             (qc + 1) c q y mi d0); try assumption; lia.
  - f_equal.
    destruct (Z.ltb_spec o 3), (Z.ltb_spec (o + 146097) 3);
      Z.to_euclidean_division_equations; lia.
Qed.

Lemma calendar_repeats_after_400_years_witness :
  ∃ year month day w,
    (∀ (pYear pMonth pDayOfMonth : ptr) (h : heap),
       grcal_offsetToDate wrap32 2 pYear pMonth pDayOfMonth h
       = Done (poke pDayOfMonth day (poke pMonth month (poke pYear year h))))
    ∧ (∀ (pYear pMonth pDayOfMonth : ptr) (h : heap),
         grcal_offsetToDate wrap32 (2 + 146097) pYear pMonth pDayOfMonth h
         = Done (poke pDayOfMonth day
                   (poke pMonth month (poke pYear (year + 400) h))))
    ∧ grcal_weekday wrap32 2 = Done w
    ∧ grcal_weekday wrap32 (2 + 146097) = Done w.
Proof.
  apply (calendar_repeats_after_400_years 2); unfold GRCAL_DAY_MAX; lia.
Defined.

(** X4. [grcal_dateToOffset] accepts exactly the calendar dates from
    1582-10-15 to the end of year 9999: month in 1..12, day within the
    month's length, not before 1582-10-15, year at most 9999. *)
Theorem dateToOffset_accepts_calendar_dates
    (pOffs : ptr) year month day (h : heap) :
  is_int year → is_int month → is_int day →
  ∃ r h',
    grcal_dateToOffset wrap32 pOffs year month day h = Done (r, h')
    ∧ (r ≠ 0 ↔
       1 <= month <= 12 ∧ 1 <= day <= civil_month_length year month ∧
       year <= 9999 ∧ ¬ date_before year month day 1582 10 15).
Proof.
  intros _ _ Hd.
  rewrite (dateToOffset_spec wrap32 INT_MAX INT_MAX_large wrap32_norm_ok)
    by (apply is_int_le; assumption).
  pose proof (date_ok_calendar year month day) as Hcal.
  destruct (date_ok year month day).
  - eexists _, _. split; [reflexivity|]. split; [intros _|discriminate].
    apply Hcal. reflexivity.
  - eexists _, _. split; [reflexivity|]. split; [congruence|].
    intros H. apply Hcal in H. discriminate H.
Qed.

Lemma dateToOffset_accepts_calendar_dates_witness :
  ∃ r h',
    grcal_dateToOffset wrap32 None 1582 10 14 ∅ = Done (r, h')
    ∧ (r ≠ 0 ↔
       1 <= 10 <= 12 ∧ 1 <= 14 <= civil_month_length 1582 10 ∧
       1582 <= 9999 ∧ ¬ date_before 1582 10 14 1582 10 15).
Proof.
  apply (dateToOffset_accepts_calendar_dates None 1582 10 14 ∅);
    unfold is_int, INT_MIN, INT_MAX; lia.
Defined.

(** X5. Offsets follow chronological order: of two accepted dates, the
    earlier one gets the smaller offset, and conversely. *)
Theorem dateToOffset_chronological
    y1 m1 d1 y2 m2 d2 (l1 l2 : loc) (h1 h1' h2 h2' : heap) r1 r2 o1 o2 :
  is_int d1 → is_int d2 →
  grcal_dateToOffset wrap32 (Some l1) y1 m1 d1 h1 = Done (r1, h1') →
  r1 ≠ 0 → h1' !! l1 = Some o1 →
  grcal_dateToOffset wrap32 (Some l2) y2 m2 d2 h2 = Done (r2, h2') →
  r2 ≠ 0 → h2' !! l2 = Some o2 →
  (o1 < o2 ↔ date_before y1 m1 d1 y2 m2 d2).
Proof.
  intros Hd1 Hd2 E1 Hr1 Hl1 E2 Hr2 Hl2.
  destruct (dateToOffset_success _ _ _ _ _ _ _ _ Hd1 E1 Hr1 Hl1) as [Hok1 <-].
  destruct (dateToOffset_success _ _ _ _ _ _ _ _ Hd2 E2 Hr2 Hl2) as [Hok2 <-].
  apply date_ok_true in Hok1, Hok2.
  apply computed_offset_before_iff; lia.
Qed.

Lemma dateToOffset_chronological_witness :
  141427 < 152443 ↔ date_before 1970 1 1 2000 2 29.
Proof.
  apply (dateToOffset_chronological 1970 1 1 2000 2 29 1%positive 1%positive
           ∅ (<[1%positive := 141427]> ∅) ∅ (<[1%positive := 152443]> ∅) 1 1).
  - unfold is_int, INT_MIN, INT_MAX. lia.
  - unfold is_int, INT_MIN, INT_MAX. lia.
  - vm_compute. reflexivity.
  - lia.
  - vm_compute. reflexivity.
  - vm_compute. reflexivity.
  - lia.
  - vm_compute. reflexivity.
Defined.



(** ** grcal_query.c: [parseInt] *)

Lemma cli_bind_Returned {A C : Type} (a : A) (k : A → cli_outcome C) :
  Returned a ≫= k = k a.
Proof. reflexivity. Qed.

Lemma is_digit_code c :
  is_digit c = negb ((char_code c <? char_code "0") || (char_code c >? char_code "9")).
Proof.
  unfold is_digit. change (char_code "0") with 48. change (char_code "9") with 57.
  destruct (Z.leb_spec 48 (char_code c)), (Z.leb_spec (char_code c) 57),
    (Z.ltb_spec (char_code c) 48), (Z.gtb_spec (char_code c) 57);
    simpl; try reflexivity; lia.
Qed.

Lemma digits_value_ge s : ∀ acc v, 0 <= acc → digits_value s acc = Some v → acc <= v.
Proof.
  induction s as [|c r IH]; intros acc v Hacc H; simpl in H.
  - injection H as <-. lia.
  - destruct (Ascii.eqb c Ascii.zero); [injection H as <-; lia|].
    destruct (is_digit c) eqn:Ed; [|discriminate].
    unfold is_digit in Ed. apply andb_true_iff in Ed. destruct Ed as [E1 E2].
    apply Z.leb_le in E1. apply IH in H; lia.
Qed.

Lemma digits_rejected_large s acc :
  INT32_MAX < acc → digits_accepted s acc = None.
Proof.
  intros Hacc. unfold digits_accepted.
  destruct (digits_value s acc) as [v|] eqn:E; [|reflexivity].
  apply digits_value_ge in E; [|unfold INT32_MAX in *; lia].
  destruct (Z.leb_spec v INT32_MAX); [lia|reflexivity].
Qed.

Section ParseInt.

Variable norm : Z → Z.
Variable B : Z.
Hypothesis HB : 2147483647 <= B.
Hypothesis Hn : norm_ok B norm.

Lemma parse_loop_spec s :
  ∀ result d,
    0 <= result <= INT32_MAX →
    ∃ r d',
      parse_loop norm s result 1 d
      = (r, match digits_accepted s result with Some _ => 1 | None => 0 end,
         d')
      ∧ (∀ v, digits_accepted s result = Some v → r = v).
Proof using HB Hn.
  induction s as [|ch rest IH]; intros result d Hr.
  - simpl. unfold digits_accepted. simpl.
    destruct (Z.leb_spec result INT32_MAX); [|lia].
    exists result, d. split; [reflexivity|]. intros v [= <-]. reflexivity.
  - simpl parse_loop. unfold digits_accepted. simpl digits_value.
    destruct (Ascii.eqb ch Ascii.zero).
    { destruct (Z.leb_spec result INT32_MAX); [|lia].
      exists result, d. split; [reflexivity|]. intros v [= <-]. reflexivity. }
    rewrite is_digit_code.
    change (char_code "0") with 48. change (char_code "9") with 57.
    destruct ((char_code ch <? 48) || (char_code ch >? 57)) eqn:Ed.
    { simpl. flags. exists result, d. split; [reflexivity|]. discriminate. }
    simpl negb. cbv iota. flags.
    apply orb_false_iff in Ed. destruct Ed as [E1 E2].
    apply Z.ltb_ge in E1. assert (E2' : char_code ch <= 57).
    { destruct (Z.gtb_spec (char_code ch) 57); [discriminate|lia]. }
    unfold_ops. unfold INT32_MAX in *. repeat norm_step Hn.
    change (Z.quot 2147483647 10) with 214748364.
    change (match digits_value rest (10 * result + (char_code ch - 48)) with
            | Some v => if v <=? 2147483647 then Some v else None
            | None => None
            end)
      with (digits_accepted rest (10 * result + (char_code ch - 48))).
    destruct (Z.leb_spec result 214748364) as [Hle|Hgt].
    2:{ flags. rewrite digits_rejected_large by (unfold INT32_MAX; lia).
        exists result, (char_code ch - 48). split; [reflexivity|]. discriminate. }
    flags. repeat norm_step Hn.
    destruct (Z.leb_spec (result * 10) (2147483647 - (char_code ch - 48)))
      as [Hle2|Hgt2].
    2:{ flags. rewrite digits_rejected_large by (unfold INT32_MAX; lia).
        exists (result * 10), (char_code ch - 48).
        split; [reflexivity|]. discriminate. }
    flags. repeat norm_step Hn.
    replace (result * 10 + (char_code ch - 48))
      with (10 * result + (char_code ch - 48)) by lia.
    apply IH. unfold INT32_MAX. lia.
Qed.

(** [parseInt] reads an optional sign and a non-empty run of digits of
    value at most [INT32_MAX]; it stores the signed value on success and
    stores nothing otherwise. *)
Lemma parseInt_spec s (l : loc) (h : heap) :
  parseInt norm (Some s) (Some l) h
  = Returned (match parse_value s with
              | Some v => (1, <[l := v]> h)
              | None => (0, h)
              end).
Proof using HB Hn.
  unfold parseInt, parse_value. cbv zeta.
  assert (Hbody : ∀ (negflag : Z) (negative : bool) body,
    (negflag = 0 ∧ negative = false) ∨ (negflag = 1 ∧ negative = true) →
    (let status := if Ascii.eqb (deref body) Ascii.zero then 0 else 1 in
     let '(result, status, _) :=
       if truthy status then parse_loop norm body 0 status 0
       else (0, status, 0) in
     @Returned (Z * gmap positive Z)
       (status,
        if truthy status
        then <[l := if truthy status && truthy negflag
                    then c_neg norm result else result]> h
        else h))
    = Returned
        (match (if Ascii.eqb (deref body) Ascii.zero then None
                else match digits_value body 0 with
                     | Some v =>
                         if v <=? INT32_MAX
                         then Some (if negative then - v else v)
                         else None
                     | None => None
                     end)
         with
         | Some v => (1, <[l := v]> h)
         | None => (0, h)
         end)).
  { intros negflag negative body Hsign. cbv zeta.
    destruct (Ascii.eqb (deref body) Ascii.zero); [flags; reflexivity|].
    flags.
    destruct (parse_loop_spec body 0 0 ltac:(unfold INT32_MAX; lia))
      as (r & d' & -> & Hv).
    unfold digits_accepted in *.
    destruct (digits_value body 0) as [v|] eqn:Edv; [|flags; reflexivity].
    destruct (Z.leb_spec v INT32_MAX) as [Hle|Hgt]; [|flags; reflexivity].
    flags. rewrite (Hv v eq_refl).
    apply digits_value_ge in Edv; [|lia].
    destruct Hsign as [[-> ->]|[-> ->]]; flags; [reflexivity|].
    unfold c_neg. unfold INT32_MAX in *. repeat norm_step Hn. reflexivity. }
  destruct (Ascii.eqb (deref s) "+"); [apply (Hbody 0 false); auto|].
  destruct (Ascii.eqb (deref s) "-"); [apply (Hbody 1 true); auto|].
  apply (Hbody 0 false); auto.
Qed.

End ParseInt.

(** ** grcal_query.c: [main] *)

Lemma peek_insert_eq (l : loc) v (h : heap) : peek l (<[l := v]> h) = v.
Proof. unfold peek. rewrite lookup_insert_eq. reflexivity. Qed.

Lemma peek_insert_ne (l l' : loc) v (h : heap) :
  l' ≠ l → peek l (<[l' := v]> h) = peek l h.
Proof. intros H. unfold peek. rewrite lookup_insert_ne by exact H. reflexivity. Qed.

Lemma lift_Done {A : Type} (a : A) : lift (Done a) = Returned a.
Proof. reflexivity. Qed.

Lemma day_name_in_range w :
  1 <= w <= 7 →
  ∃ name, day_name_at (w - 1) = Returned name
          ∧ DAY_NAMES !! Z.to_nat (w - 1) = Some name.
Proof.
  intros Hw.
  assert (H : w = 1 ∨ w = 2 ∨ w = 3 ∨ w = 4 ∨ w = 5 ∨ w = 6 ∨ w = 7) by lia.
  destruct H as [->|[->|[->|[->|[->|[->| ->]]]]]];
    eexists; split; reflexivity.
Qed.


Ltac cli_steps :=
  repeat (progress (cbv beta iota; flags; cbn [negb andb];
                    rewrite ?cli_bind_Returned, ?lift_Done)).

Ltac main_prefix :=
  unfold main, well_formed_argv; cbv zeta;
  rewrite (bool_decide_true (_ ≠ _)) by (intros E; discriminate E);
  rewrite (bool_decide_false (_ = _)) by (intros E; discriminate E);
  simpl map.


(** One argument: the three outcomes of the offset query. *)
Lemma main_offset_run prog s :
  (parse_value s = None →
   main wrap32 2 (well_formed_argv [prog; s])
   = Returned (1, [Stderr MSG_PARSE [Arg_str prog]]))
  ∧ (∀ o, parse_value s = Some o → ¬ (0 <= o <= GRCAL_DAY_MAX) →
          main wrap32 2 (well_formed_argv [prog; s])
          = Returned (1, [Stderr MSG_OFFSET_RANGE [Arg_str prog]]))
  ∧ (∀ o year month day w,
       parse_value s = Some o → 0 <= o <= GRCAL_DAY_MAX →
       (∀ (pY pM pD : ptr) (h : heap),
          grcal_offsetToDate wrap32 o pY pM pD h
          = Done (poke pD day (poke pM month (poke pY year h)))) →
       grcal_weekday wrap32 o = Done w →
       ∃ name,
         DAY_NAMES !! Z.to_nat (w - 1) = Some name
         ∧ main wrap32 2 (well_formed_argv [prog; s])
           = Returned (0, [Stdout FMT_DATE
                             [Arg_int year; Arg_int month; Arg_int day;
                              Arg_str name]])).
Proof.
  assert (Hrun :
    main wrap32 2 (well_formed_argv [prog; s])
    = (let '(r, h) :=
         match parse_value s with
         | Some v => (1, <[in_offs := v]> main_frame)
         | None => (0, main_frame)
         end in
       let '(status, out) :=
         if negb (truthy r)
         then (0, [] ++ [Stderr MSG_PARSE [Arg_str prog]])
         else (1, []) in
       let '(status0, out0) :=
         if truthy status then
           if (peek in_offs h <? 0) || (peek in_offs h >? GRCAL_DAY_MAX)
           then (0, out ++ [Stderr MSG_OFFSET_RANGE [Arg_str prog]])
           else (status, out)
         else (status, out) in
       (if truthy status0 then
          lift (grcal_offsetToDate wrap32 (peek in_offs h)
                  (Some o_year) (Some o_month) (Some o_day) h)
          ≫= λ h' : gmap positive Z,
               lift (grcal_weekday wrap32 (peek in_offs h'))
               ≫= λ w : Z, Returned (h', w)
        else Returned (h, 0))
       ≫= λ '(h0, o_wkday),
            (if truthy status0 then
               day_name_at (c_sub wrap32 o_wkday 1)
               ≫= λ name : string,
                    Returned
                      (out0 ++
                       [Stdout FMT_DATE
                          [Arg_int (peek o_year h0); Arg_int (peek o_month h0);
                           Arg_int (peek o_day h0); Arg_str name]])
             else Returned out0)
            ≫= λ out1 : list event, Returned (status0, out1))
      ≫= (λ '(status, out), Returned (if truthy status then 0 else 1, out))).
  { main_prefix.
    change (2 >? 0) with true. cbn [andb].
    change (argv_at (Some [Some prog; Some s]) 0)
      with (@Returned (option string) (Some prog)).
    rewrite !cli_bind_Returned.
    change (check_args wrap32 (S (Z.to_nat 2)) 0 2 (Some [Some prog; Some s]))
      with (Returned tt).
    rewrite cli_bind_Returned.
    change (2 =? 2) with true. change (2 =? 4) with false. cbn [negb andb].
    cbv iota beta. flags. cbn [andb].
    change (argv_at (Some [Some prog; Some s]) 1)
      with (@Returned (option string) (Some s)).
    rewrite cli_bind_Returned.
    rewrite (parseInt_spec wrap32 INT_MAX ltac:(unfold INT_MAX; lia)
               wrap32_norm_ok).
    rewrite cli_bind_Returned. reflexivity. }
  rewrite Hrun. clear Hrun.
  split; [|split].
  - intros ->. reflexivity.
  - intros o -> Hout. cbv beta iota. flags.
    rewrite peek_insert_eq.
    destruct (Z.ltb_spec o 0), (Z.gtb_spec o GRCAL_DAY_MAX); try lia;
      reflexivity.
  - intros o year month day w -> Ho Hdate Hw. cbv beta iota. flags.
    cbn [negb]. cbv beta iota. flags.
    rewrite peek_insert_eq.
    destruct (Z.ltb_spec o 0), (Z.gtb_spec o GRCAL_DAY_MAX); try lia.
    cbn [orb]. cbv beta iota. flags.
    rewrite Hdate, lift_Done, cli_bind_Returned. simpl poke.
    rewrite !peek_insert_ne by discriminate. rewrite peek_insert_eq.
    rewrite Hw, lift_Done, !cli_bind_Returned. cbv beta iota.
    assert (Hwr : 1 <= w <= 7).
    { rewrite (weekday_spec wrap32 INT_MAX o INT_MAX_large wrap32_norm_ok Ho)
        in Hw.
      apply Done_inj in Hw. subst w.
      pose proof (Z.mod_pos_bound
                    ((if o <? 3 then o + 7 else o) - 3) 7 ltac:(lia)). lia. }
    destruct (day_name_in_range w Hwr) as (name & Hname & Hlook).
    exists name. split; [exact Hlook|].
    unfold c_sub. rewrite wrap32_norm_ok by (unfold INT_MAX; lia).
    rewrite Hname, !cli_bind_Returned.
    rewrite peek_insert_eq.
    rewrite (peek_insert_ne o_month) by discriminate. rewrite peek_insert_eq.
    rewrite !(peek_insert_ne o_year) by discriminate. rewrite peek_insert_eq.
    reflexivity.
Qed.

(** Three arguments: the date query, outcome by outcome. *)
Lemma main_date_run prog a b c :
  main wrap32 4 (well_formed_argv [prog; a; b; c])
  = Returned
      (match parse_value a with
       | None => (1, [Stderr MSG_PARSE_YEAR [Arg_str prog]])
       | Some year =>
       match parse_value b with
       | None => (1, [Stderr MSG_PARSE_MONTH [Arg_str prog]])
       | Some month =>
       match parse_value c with
       | None => (1, [Stderr MSG_PARSE_DAY [Arg_str prog]])
       | Some day =>
           if (year <? 0) || (year >? 9999)
           then (1, [Stderr MSG_YEAR_RANGE [Arg_str prog]])
           else if (month <? 1) || (month >? 12)
           then (1, [Stderr MSG_MONTH_RANGE [Arg_str prog]])
           else if (day <? 1) || (day >? 31)
           then (1, [Stderr MSG_DAY_RANGE [Arg_str prog]])
           else if date_ok year month day
           then (0, [Stdout FMT_OFFSET
                       [Arg_int (computed_offset year month day)]])
           else (1, [Stderr MSG_INVALID [Arg_str prog]])
       end end end).
Proof.
  main_prefix.
  change (4 >? 0) with true. cbn [andb].
  change (argv_at (Some [Some prog; Some a; Some b; Some c]) 0)
    with (@Returned (option string) (Some prog)).
  change (argv_at (Some [Some prog; Some a; Some b; Some c]) 1)
    with (@Returned (option string) (Some a)).
  change (argv_at (Some [Some prog; Some a; Some b; Some c]) 2)
    with (@Returned (option string) (Some b)).
  change (argv_at (Some [Some prog; Some a; Some b; Some c]) 3)
    with (@Returned (option string) (Some c)).
  change (check_args wrap32 (S (Z.to_nat 4)) 0 4
            (Some [Some prog; Some a; Some b; Some c]))
    with (Returned tt).
  change (4 =? 2) with false. change (4 =? 4) with true.
  cli_steps.
  rewrite (parseInt_spec wrap32 INT_MAX ltac:(unfold INT_MAX; lia)
             wrap32_norm_ok).
  destruct (parse_value a) as [year|]; cli_steps; [|reflexivity].
  rewrite (parseInt_spec wrap32 INT_MAX ltac:(unfold INT_MAX; lia)
             wrap32_norm_ok).
  destruct (parse_value b) as [month|]; cli_steps; [|reflexivity].
  rewrite (parseInt_spec wrap32 INT_MAX ltac:(unfold INT_MAX; lia)
             wrap32_norm_ok).
  destruct (parse_value c) as [day|]; cli_steps; [|reflexivity].
  rewrite !peek_insert_eq.
  rewrite !(peek_insert_ne in_month) by discriminate.
  rewrite !(peek_insert_ne in_year) by discriminate.
  rewrite !peek_insert_eq.
  destruct ((year <? 0) || (year >? 9999)); cli_steps; [reflexivity|].
  destruct ((month <? 1) || (month >? 12)); cli_steps; [reflexivity|].
  destruct ((day <? 1) || (day >? 31)) eqn:Ed; cli_steps; [reflexivity|].
  apply orb_false_iff in Ed. destruct Ed as [_ Ed].
  rewrite (dateToOffset_spec wrap32 INT_MAX INT_MAX_large wrap32_norm_ok)
    by (destruct (Z.gtb_spec day 31); [discriminate|unfold INT_MAX; lia]).
  destruct (date_ok year month day); cli_steps; [|reflexivity].
  simpl poke. rewrite peek_insert_eq. reflexivity.
Qed.

(** *** Decimal strings for every value *)

Lemma is_digit_differs c x :
  is_digit c = true → char_code x < 48 → Ascii.eqb c x = false.
Proof.
  intros Hd Hx. apply Ascii.eqb_neq. intros ->.
  unfold is_digit in Hd. apply andb_true_iff in Hd. destruct Hd as [Hd _].
  apply Z.leb_le in Hd. lia.
Qed.

Lemma digit_step d :
  0 <= d <= 9 →
  ∃ c, is_digit c = true
       ∧ ∀ t acc, digits_value (String c t) acc
                  = digits_value t (10 * acc + d).
Proof.
  intros Hd. exists (ascii_of_nat (Z.to_nat (48 + d))).
  assert (Hc : char_code (ascii_of_nat (Z.to_nat (48 + d))) = 48 + d).
  { unfold char_code. rewrite nat_ascii_embedding by lia. lia. }
  assert (Hdig : is_digit (ascii_of_nat (Z.to_nat (48 + d))) = true).
  { unfold is_digit. rewrite Hc. apply andb_true_iff.
    split; apply Z.leb_le; lia. }
  split; [exact Hdig|]. intros t acc. simpl.
  rewrite (is_digit_differs _ Ascii.zero Hdig) by (vm_compute; reflexivity).
  rewrite Hdig, Hc. f_equal. lia.
Qed.

Lemma decimal_exists n :
  0 <= n →
  ∃ k, ∀ t, ∃ c r,
    is_digit c = true
    ∧ ∀ acc, digits_value (String c r) acc = digits_value t (acc * k + n).
Proof.
  revert n. apply (Zlt_0_ind (λ n, ∃ k, ∀ t, ∃ c r,
    is_digit c = true
    ∧ ∀ acc, digits_value (String c r) acc = digits_value t (acc * k + n))).
  intros n IH Hn.
  destruct (Z.lt_ge_cases n 10) as [Hlt|Hge].
  - exists 10. intros t.
    destruct (digit_step n ltac:(lia)) as (c & Hc & Hstep).
    exists c, t. split; [exact Hc|]. intros acc. rewrite Hstep. f_equal. lia.
  - destruct (IH (n / 10)) as [k' Hk'].
    { split; [apply Z.div_pos; lia|apply Z.div_lt; lia]. }
    exists (k' * 10). intros t.
    destruct (digit_step (n mod 10)) as (c2 & Hc2 & Hstep).
    { pose proof (Z.mod_pos_bound n 10 ltac:(lia)). lia. }
    destruct (Hk' (String c2 t)) as (c & r & Hc & Hval).
    exists c, r. split; [exact Hc|]. intros acc.
    rewrite Hval, Hstep. f_equal.
    pose proof (Z.div_mod n 10 ltac:(lia)). lia.
Qed.

Lemma parse_value_range s v :
  parse_value s = Some v → - INT32_MAX <= v <= INT32_MAX.
Proof.
  unfold parse_value.
  assert (Hbody : ∀ (negative : bool) body,
    (if Ascii.eqb (deref body) Ascii.zero then None
     else match digits_value body 0 with
          | Some v0 =>
              if v0 <=? INT32_MAX
              then Some (if negative then - v0 else v0) else None
          | None => None
          end) = Some v → - INT32_MAX <= v <= INT32_MAX).
  { intros negative body H.
    destruct (Ascii.eqb (deref body) Ascii.zero); [discriminate|].
    destruct (digits_value body 0) as [v0|] eqn:E; [|discriminate].
    apply digits_value_ge in E; [|lia].
    destruct (Z.leb_spec v0 INT32_MAX); [|discriminate].
    injection H as <-. destruct negative; lia. }
  destruct (Ascii.eqb (deref s) "+"); [apply (Hbody false)|].
  destruct (Ascii.eqb (deref s) "-"); [apply (Hbody true)|apply (Hbody false)].
Qed.

Lemma parse_value_onto v :
  - INT32_MAX <= v <= INT32_MAX → ∃ s, parse_value s = Some v.
Proof.
  intros Hv.
  destruct (decimal_exists (Z.abs v) ltac:(lia)) as [k Hk].
  destruct (Hk EmptyString) as (c & r & Hc & Hval).
  specialize (Hval 0). simpl digits_value in Hval at 2.
  rewrite Z.mul_0_l, Z.add_0_l in Hval.
  pose proof (is_digit_differs c "+" Hc ltac:(vm_compute; reflexivity)) as Hplus.
  pose proof (is_digit_differs c "-" Hc ltac:(vm_compute; reflexivity)) as Hminus.
  pose proof (is_digit_differs c Ascii.zero Hc ltac:(vm_compute; reflexivity))
    as Hzero.
  destruct (Z.lt_ge_cases v 0) as [Hneg|Hpos].
  - exists (String "-" (String c r)). unfold parse_value.
    change (deref (String "-" (String c r))) with "-"%char.
    change (Ascii.eqb "-" "+") with false. change (Ascii.eqb "-" "-") with true.
    cbv iota. change (advance (String "-" (String c r))) with (String c r).
    change (deref (String c r)) with c. rewrite Hzero, Hval.
    destruct (Z.leb_spec (Z.abs v) INT32_MAX); [|lia]. f_equal. lia.
  - exists (String c r). unfold parse_value.
    change (deref (String c r)) with c. rewrite Hplus, Hminus. cbv iota.
    change (deref (String c r)) with c. rewrite Hzero, Hval.
    destruct (Z.leb_spec (Z.abs v) INT32_MAX); [|lia]. f_equal. lia.
Qed.

(** ** Further properties of grcal_query.c *)

(** X7. [parseInt] reads an optional sign followed by at least one digit
    and nothing else, of value at most [INT32_MAX]: it then returns 1 and
    stores the signed value; on any other string it returns 0 and stores
    nothing.  A NULL string or destination is a crash. *)
Theorem parseInt_reads_decimal :
  (∀ (s : string) (l : loc) (h : heap),
     parseInt wrap32 (Some s) (Some l) h
     = Returned (match parse_value s with
                 | Some v => (1, <[l := v]> h)
                 | None => (0, h)
                 end))
  ∧ (∀ (pv : ptr) (h : heap),
       parseInt wrap32 None pv h = Crashed ParseInt_param)
  ∧ (∀ (pstr : option string) (h : heap),
       parseInt wrap32 pstr None h = Crashed ParseInt_param).
Proof.
  split; [|split].
  - intros s l h.
    apply (parseInt_spec wrap32 INT_MAX); [unfold INT_MAX; lia|].
    exact wrap32_norm_ok.
  - intros pv h. reflexivity.
  - intros [s|] h; reflexivity.
Qed.

(** X8. A value stored by [parseInt] lies between [-INT32_MAX] and
    [INT32_MAX], so the least 32-bit integer is never produced; when
    [parseInt] returns 0 the heap is unchanged, and in any case only the
    destination cell can change. *)
Theorem parseInt_result_range
    (s : string) (l : loc) (h h' : heap) (r : Z) :
  parseInt wrap32 (Some s) (Some l) h = Returned (r, h') →
  (r = 0 ∧ h' = h
   ∨ r = 1 ∧ ∃ v, h' = <[l := v]> h ∧ - INT32_MAX <= v <= INT32_MAX
                  ∧ v ≠ INT_MIN)
  ∧ (∀ l', l' ≠ l → h' !! l' = h !! l').
Proof.
  rewrite (parseInt_spec wrap32 INT_MAX ltac:(unfold INT_MAX; lia)
             wrap32_norm_ok).
  destruct (parse_value s) as [v|] eqn:E; intros [= <- <-].
  - pose proof (parse_value_range s v E) as Hv. split.
    + right. split; [reflexivity|]. exists v.
      split; [reflexivity|]. split; [exact Hv|].
      unfold INT32_MAX, INT_MIN in *. lia.
    + intros l' Hne. apply lookup_insert_ne. congruence.
  - split; [left; split; reflexivity|]. intros; reflexivity.
Qed.

Lemma parseInt_result_range_witness :
  (1 = 0 ∧ <[1%positive := -12]> (∅ : gmap positive Z) = ∅
   ∨ 1 = 1 ∧ ∃ v, <[1%positive := -12]> (∅ : gmap positive Z)
                  = <[1%positive := v]> ∅
                  ∧ - INT32_MAX <= v <= INT32_MAX ∧ v ≠ INT_MIN)
  ∧ (∀ l', l' ≠ 1%positive →
           (<[1%positive := -12]> (∅ : gmap positive Z)) !! l'
           = (∅ : gmap positive Z) !! l').
Proof.
  apply (parseInt_result_range "-12" 1%positive ∅ (<[1%positive := -12]> ∅) 1).
  vm_compute. reflexivity.
Defined.

(** X9. The overflow guards of [parseInt] are effective: no intermediate
    value exceeds [INT32_MAX] in magnitude, so a normalisation that leaves
    such values alone, 32-bit wrap-around in particular, computes what
    exact arithmetic computes, on every string. *)
Theorem parseInt_no_overflow (norm : Z → Z) :
  norm_ok INT32_MAX norm →
  (∀ (s : string) (l : loc) (h : heap),
     parseInt norm (Some s) (Some l) h = parseInt exact (Some s) (Some l) h)
  ∧ (∀ (s : string) (l : loc) (h : heap),
       parseInt wrap32 (Some s) (Some l) h
       = parseInt exact (Some s) (Some l) h).
Proof.
  intros Hn. split; intros s l h.
  - rewrite (parseInt_spec norm INT32_MAX ltac:(unfold INT32_MAX; lia) Hn).
    rewrite (parseInt_spec exact INT32_MAX ltac:(unfold INT32_MAX; lia)
               (exact_norm_ok _)).
    reflexivity.
  - rewrite (parseInt_spec wrap32 INT_MAX ltac:(unfold INT_MAX; lia)
               wrap32_norm_ok).
    rewrite (parseInt_spec exact INT32_MAX ltac:(unfold INT32_MAX; lia)
               (exact_norm_ok _)).
    reflexivity.
Qed.

Lemma parseInt_no_overflow_witness :
  (∀ (s : string) (l : loc) (h : heap),
     parseInt wrap32 (Some s) (Some l) h = parseInt exact (Some s) (Some l) h)
  ∧ (∀ (s : string) (l : loc) (h : heap),
       parseInt wrap32 (Some s) (Some l) h
       = parseInt exact (Some s) (Some l) h).
Proof.
  apply (parseInt_no_overflow wrap32).
  intros z Hz. apply wrap32_small. unfold INT32_MAX, INT_MIN, INT_MAX in *. lia.
Defined.

(** X10. Every integer from [-INT32_MAX] to [INT32_MAX] is the value
    [parseInt] reads from some string. *)
Theorem parseInt_reaches_every_value (v : Z) :
  - INT32_MAX <= v <= INT32_MAX →
  ∃ s, ∀ (l : loc) (h : heap),
    parseInt wrap32 (Some s) (Some l) h = Returned (1, <[l := v]> h).
Proof.
  intros Hv. destruct (parse_value_onto v Hv) as [s Hs].
  exists s. intros l h.
  rewrite (parseInt_spec wrap32 INT_MAX ltac:(unfold INT_MAX; lia)
             wrap32_norm_ok).
  rewrite Hs. reflexivity.
Qed.

Lemma parseInt_reaches_every_value_witness :
  ∃ s, ∀ (l : loc) (h : heap),
    parseInt wrap32 (Some s) (Some l) h
    = Returned (1, <[l := -2147483647]> h).
Proof.
  apply (parseInt_reaches_every_value (-2147483647)). unfold INT32_MAX. lia.
Defined.

(** X11. One-argument call.  If the argument does not parse, or parses to
    an offset outside [0, 3074323], [main] prints the matching diagnostic
    and returns 1; otherwise it prints the date written by
    [grcal_offsetToDate] and the name of the weekday returned by
    [grcal_weekday], and returns 0. *)
Theorem main_offset_query (prog s : string) :
  (parse_value s = None →
   main wrap32 2 (well_formed_argv [prog; s])
   = Returned (1, [Stderr MSG_PARSE [Arg_str prog]]))
  ∧ (∀ o, parse_value s = Some o → ¬ (0 <= o <= GRCAL_DAY_MAX) →
          main wrap32 2 (well_formed_argv [prog; s])
          = Returned (1, [Stderr MSG_OFFSET_RANGE [Arg_str prog]]))
  ∧ (∀ o, parse_value s = Some o → 0 <= o <= GRCAL_DAY_MAX →
          ∃ year month day w name,
            (∀ (pYear pMonth pDayOfMonth : ptr) (h : heap),
               grcal_offsetToDate wrap32 o pYear pMonth pDayOfMonth h
               = Done (poke pDayOfMonth day
                         (poke pMonth month (poke pYear year h))))
            ∧ grcal_weekday wrap32 o = Done w
            ∧ DAY_NAMES !! Z.to_nat (w - 1) = Some name
            ∧ main wrap32 2 (well_formed_argv [prog; s])
              = Returned (0, [Stdout FMT_DATE
                                [Arg_int year; Arg_int month; Arg_int day;
                                 Arg_str name]])).
Proof.
  destruct (main_offset_run prog s) as (H1 & H2 & H3).
  split; [exact H1|split; [exact H2|]].
  intros o Hs Ho.
  destruct (date_of_offset wrap32 INT_MAX INT_MAX_large wrap32_norm_ok o Ho)
    as (year & month & day & _ & _ & _ & Hdec).
  pose proof (weekday_spec wrap32 INT_MAX o INT_MAX_large wrap32_norm_ok Ho)
    as Hw.
  destruct (H3 o year month day _ Hs Ho Hdec Hw) as (name & Hname & Hmain).
  eexists year, month, day, _, name.
  split; [exact Hdec|split; [exact Hw|split; [exact Hname|exact Hmain]]].
Qed.

(** X12. Three-argument call, outcome by outcome: the first failing step
    among parsing the year, the month, the day, the three range checks and
    the validation by [grcal_dateToOffset] decides the diagnostic and the
    exit status is 1; when every step passes the computed offset is
    printed and the exit status is 0. *)
Theorem main_date_query (prog a b c : string) :
  main wrap32 4 (well_formed_argv [prog; a; b; c])
  = Returned
      (match parse_value a with
       | None => (1, [Stderr MSG_PARSE_YEAR [Arg_str prog]])
       | Some year =>
       match parse_value b with
       | None => (1, [Stderr MSG_PARSE_MONTH [Arg_str prog]])
       | Some month =>
       match parse_value c with
       | None => (1, [Stderr MSG_PARSE_DAY [Arg_str prog]])
       | Some day =>
           if (year <? 0) || (year >? 9999)
           then (1, [Stderr MSG_YEAR_RANGE [Arg_str prog]])
           else if (month <? 1) || (month >? 12)
           then (1, [Stderr MSG_MONTH_RANGE [Arg_str prog]])
           else if (day <? 1) || (day >? 31)
           then (1, [Stderr MSG_DAY_RANGE [Arg_str prog]])
           else if date_ok year month day
           then (0, [Stdout FMT_OFFSET
                       [Arg_int (computed_offset year month day)]])
           else (1, [Stderr MSG_INVALID [Arg_str prog]])
       end end end).
Proof. exact (main_date_run prog a b c). Qed.



(** X14. Round trip through the program: when the one-argument call
    prints a date for an offset, the three-argument call on any strings
    that read as that year, month and day prints that offset. *)
Theorem query_offset_then_date
    (prog s a b c name : string) (year month day : Z) :
  main wrap32 2 (well_formed_argv [prog; s])
  = Returned (0, [Stdout FMT_DATE
                    [Arg_int year; Arg_int month; Arg_int day;
                     Arg_str name]]) →
  parse_value a = Some year → parse_value b = Some month →
  parse_value c = Some day →
  ∃ o, parse_value s = Some o
       ∧ main wrap32 4 (well_formed_argv [prog; a; b; c])
         = Returned (0, [Stdout FMT_OFFSET [Arg_int o]]).
Proof.
  intros Hmain Ha Hb Hc.
  destruct (main_offset_run prog s) as (H1 & H2 & H3).
  destruct (parse_value s) as [o|]; [|rewrite H1 in Hmain by reflexivity;
                                      discriminate Hmain].
  exists o. split; [reflexivity|].
  assert (Ho : 0 <= o <= GRCAL_DAY_MAX).
  { destruct (Z.le_gt_cases 0 o) as [H0|H0];
      [destruct (Z.le_gt_cases o GRCAL_DAY_MAX) as [Hm|Hm]|];
      [lia| |];
      rewrite (H2 o eq_refl) in Hmain by lia; discriminate Hmain. }
  destruct (date_of_offset wrap32 INT_MAX INT_MAX_large wrap32_norm_ok o Ho)
    as (year' & month' & day' & Hok & Hco & _ & Hdec).
  pose proof (weekday_spec wrap32 INT_MAX o INT_MAX_large wrap32_norm_ok Ho)
    as Hw.
  destruct (H3 o year' month' day' _ eq_refl Ho Hdec Hw)
    as (name' & _ & Hmain').
  rewrite Hmain' in Hmain. injection Hmain as -> -> -> _.
  rewrite main_date_run, Ha, Hb, Hc.
  pose proof (proj1 (date_ok_true year month day) Hok) as (Hy & Hm & Hd & _).
  pose proof (civil_month_length_bound year month) as Hlen.
  destruct (Z.ltb_spec year 0), (Z.gtb_spec year 9999); try lia.
  destruct (Z.ltb_spec month 1), (Z.gtb_spec month 12); try lia.
  destruct (Z.ltb_spec day 1), (Z.gtb_spec day 31); try lia.
  cbn [orb]. rewrite Hok, Hco. reflexivity.
Qed.

Lemma query_offset_then_date_witness :
  ∃ o, parse_value "141427" = Some o
       ∧ main wrap32 4 (well_formed_argv ["q"; "1970"; "01"; "+1"]%string)
         = Returned (0, [Stdout FMT_OFFSET [Arg_int o]]).
Proof.
  apply (query_offset_then_date "q" "141427" "1970" "01" "+1" "Thu" 1970 1 1);
    vm_compute; reflexivity.
Defined.

(** X15. Round trip through the program, the other way: when the
    three-argument call prints an offset, the one-argument call on any
    string that reads as that offset prints the year, month and day the
    three arguments read as. *)
Theorem query_date_then_offset (prog a b c s : string) (o : Z) :
  main wrap32 4 (well_formed_argv [prog; a; b; c])
  = Returned (0, [Stdout FMT_OFFSET [Arg_int o]]) →
  parse_value s = Some o →
  ∃ year month day name,
    parse_value a = Some year ∧ parse_value b = Some month
    ∧ parse_value c = Some day
    ∧ main wrap32 2 (well_formed_argv [prog; s])
      = Returned (0, [Stdout FMT_DATE
                        [Arg_int year; Arg_int month; Arg_int day;
                         Arg_str name]]).
Proof.
  intros Hmain Hs. rewrite main_date_run in Hmain.
  destruct (parse_value a) as [year|]; [|discriminate Hmain].
  destruct (parse_value b) as [month|]; [|discriminate Hmain].
  destruct (parse_value c) as [day|]; [|discriminate Hmain].
  destruct (_ || _); [discriminate Hmain|].
  destruct (_ || _); [discriminate Hmain|].
  destruct (_ || _); [discriminate Hmain|].
  destruct (date_ok year month day) eqn:Hok; [|discriminate Hmain].
  injection Hmain as <-.
  pose proof (proj1 (date_ok_true year month day) Hok) as (_ & _ & _ & Ho).
  pose proof (offsetToDate_of_date wrap32 INT_MAX INT_MAX_large wrap32_norm_ok
                year month day) as Hdec.
  pose proof (weekday_spec wrap32 INT_MAX _ INT_MAX_large wrap32_norm_ok Ho)
    as Hw.
  destruct (main_offset_run prog s) as (_ & _ & H3).
  destruct (H3 _ year month day _ Hs Ho (λ pY pM pD h, Hdec pY pM pD h Hok) Hw)
    as (name & _ & Hmain').
  exists year, month, day, name. repeat split; exact Hmain'.
Qed.

Lemma query_date_then_offset_witness :
  ∃ year month day name,
    parse_value "2000" = Some year ∧ parse_value "2" = Some month
    ∧ parse_value "29" = Some day
    ∧ main wrap32 2 (well_formed_argv ["q"; "152443"]%string)
      = Returned (0, [Stdout FMT_DATE
                        [Arg_int year; Arg_int month; Arg_int day;
                         Arg_str name]]).
Proof.
  apply (query_date_then_offset "q" "2000" "2" "29" "152443" 152443);
    vm_compute; reflexivity.
Defined.
